(** * Autonomous Data Engineering Squad: the orchestration core of production.py

    A shallow embedding of the text-processing functions and of the staged
    pipeline of [production.py], followed by the properties that the
    specification states about them.

    Conventions.
    - A Python [str] is a list of Unicode code points ([N]).  ASCII literals
      are written through [lit]; the few non-ASCII characters of the source
      (the em dash of the failure messages and of the transcript labels) are
      given by their code point.
    - A message of a chat history is a Python dict with the keys [role],
      [name], [content]; it is a record of optional fields, [None] standing
      for an absent key (for [content] also for a present [None] value, which
      the source folds into the empty text).
    - [user_proxy.initiate_chat] belongs to the agent framework and to the
      remote completion service.  It is a parameter of the development: a
      function on an abstract [World] that returns a chat history or raises.
    - Effects are recorded in order in a trace of [event]s. *)

From Stdlib Require Import List NArith ZArith Bool Lia String Ascii.
Import ListNotations.

Local Open Scope N_scope.

(* ===================================================================== *)
(** ** Text *)
(* ===================================================================== *)

Definition char : Type := N.
Definition str : Type := list char.

(** An ASCII literal as a [str]. *)
Fixpoint lit (s : string) : str :=
  match s with
  | EmptyString => []
  | String a s' => N_of_ascii a :: lit s'
  end.

Definition NL : char := 10.
Definition BACKTICK : char := 96.
Definition EM_DASH : char := 8212.

Fixpoint str_eqb (a b : str) : bool :=
  match a, b with
  | [], [] => true
  | x :: a', y :: b' => (x =? y) && str_eqb a' b'
  | _, _ => false
  end.

(** [s.startswith(p)] *)
Fixpoint startswith (p s : str) : bool :=
  match p, s with
  | [], _ => true
  | x :: p', y :: s' => (x =? y) && startswith p' s'
  | _ :: _, [] => false
  end.

(** [p in s] for two texts: [p] occurs in [s] as a substring. *)
Fixpoint contains (p s : str) : bool :=
  startswith p s || match s with [] => false | _ :: t => contains p t end.

(** [sep.join(parts)] *)
Fixpoint join (sep : str) (parts : list str) : str :=
  match parts with
  | [] => []
  | [p] => p
  | p :: rest => p ++ sep ++ join sep rest
  end.

(** White space as [str.strip] and the [\s] class of [re] on a [str] pattern
    see it (the code points for which [str.isspace] holds). *)
Definition is_space (c : char) : bool :=
  ((9 <=? c) && (c <=? 13)) || ((28 <=? c) && (c <=? 32))
  || (c =? 133) || (c =? 160) || (c =? 5760)
  || ((8192 <=? c) && (c <=? 8202))
  || (c =? 8232) || (c =? 8233) || (c =? 8239) || (c =? 8287) || (c =? 12288).

Fixpoint lstrip (s : str) : str :=
  match s with
  | [] => []
  | c :: t => if is_space c then lstrip t else s
  end.

Definition rstrip (s : str) : str := rev (lstrip (rev s)).

(** [s.strip()] *)
Definition strip (s : str) : str := rstrip (lstrip s).

(** [c * n] for a one-character text [c]. *)
Definition times (c : char) (n : nat) : str := repeat c n.

(* ===================================================================== *)
(** ** Quality gate: [local_quality_check] *)
(* ===================================================================== *)

Definition RULE1_FAIL : str :=
  lit "[RULE 1] FAIL " ++ [EM_DASH] ++
  lit " 'partitionBy' not found. Add .write.partitionBy('event_date')".

Definition RULE2_FAIL : str :=
  lit "[RULE 2] FAIL " ++ [EM_DASH] ++
  lit " 'to_date' not found. Derive event_date using to_date(col('event_timestamp'))".

Definition RULE3_FAIL : str :=
  lit "[RULE 3] FAIL " ++ [EM_DASH] ++
  lit " No explicit schema. Define schema using StructType/StructField".

(** The three [if] statements append to [failures] in turn. *)
Definition local_quality_check (code : str) : bool * list str :=
  let failures := [] in
  let failures :=
    if negb (contains (lit "partitionBy") code)
    then failures ++ [RULE1_FAIL] else failures in
  let failures :=
    if negb (contains (lit "to_date") code)
    then failures ++ [RULE2_FAIL] else failures in
  let failures :=
    if negb (contains (lit "StructType") code)
       && negb (contains (lit "StructField") code)
    then failures ++ [RULE3_FAIL] else failures in
  (Nat.eqb (List.length failures) 0, failures).

(* ===================================================================== *)
(** ** Regular expressions, as far as the source uses them

    A backtracking matcher in continuation-passing style, with the
    priorities of Python's [re]: alternation tries its branches from the
    left, [?] and [*] are greedy, [*?] is lazy. One capture group. *)
(* ===================================================================== *)

Inductive regex : Type :=
| Lit (l : str)                    (* the characters of [l] *)
| Cat (r1 r2 : regex)              (* r1 r2 *)
| Alt (r1 r2 : regex)              (* r1|r2 *)
| Opt (r : regex)                  (* r? *)
| StarClass (p : char -> bool)     (* c* for a character class c *)
| LazyDot                          (* .*? under re.DOTALL *)
| Group (r : regex).               (* (r), group 1 *)

(** The matcher answers with the text of group 1 (if it took part in the
    match) and the text that follows the match. *)
Definition answer : Type := option (option str * str).
Definition cont : Type := str -> option str -> answer.

Definition orelse (a b : answer) : answer :=
  match a with Some _ => a | None => b end.

Definition strip_prefix (p s : str) : option str :=
  if startswith p s then Some (skipn (List.length p) s) else None.

Fixpoint greedy (p : char -> bool) (s : str) (k : str -> answer) : answer :=
  match s with
  | c :: t => if p c then orelse (greedy p t k) (k s) else k s
  | [] => k []
  end.

Fixpoint lazy (s : str) (k : str -> answer) : answer :=
  orelse (k s) match s with [] => None | _ :: t => lazy t k end.

Fixpoint rmatch (r : regex) (s : str) (g : option str) (k : cont) : answer :=
  match r with
  | Lit l => match strip_prefix l s with Some s' => k s' g | None => None end
  | Cat r1 r2 => rmatch r1 s g (fun s' g' => rmatch r2 s' g' k)
  | Alt r1 r2 => orelse (rmatch r1 s g k) (rmatch r2 s g k)
  | Opt r1 => orelse (rmatch r1 s g k) (k s g)
  | StarClass p => greedy p s (fun s' => k s' g)
  | LazyDot => lazy s (fun s' => k s' g)
  | Group r1 =>
      rmatch r1 s g
        (fun s' _ => k s' (Some (firstn (List.length s - List.length s') s)))
  end.

(** [re.match] at the head of [s]. *)
Definition accept : cont := fun s' g => Some (g, s').

Definition match_here (r : regex) (s : str) : answer :=
  rmatch r s None accept.

(** [re.findall] for a pattern with one group: the texts of group 1 of the
    successive matches, scanning from the left and resuming where a match
    ended.  [skip] counts the characters of the last match still to pass.
    (A match that consumes nothing moves one character on; the pattern of
    the source never matches the empty text, see [fence_match_consumes].) *)
Fixpoint findall_from (r : regex) (skip : nat) (s : str) {struct s} : list str :=
  match skip, s with
  | S n, _ :: t => findall_from r n t
  | S _, [] => []
  | O, [] =>
      match match_here r [] with
      | Some (g, _) => [match g with Some b => b | None => [] end]
      | None => []
      end
  | O, _ :: t =>
      match match_here r s with
      | Some (g, rest) =>
          match g with Some b => b | None => [] end
          :: findall_from r (List.length s - List.length rest - 1) t
      | None => findall_from r 0 t
      end
  end.

Definition findall (r : regex) (s : str) : list str := findall_from r 0 s.

Definition FENCE : str := [BACKTICK; BACKTICK; BACKTICK].

(** The pattern of [extract_code_from_chat], compiled with re.DOTALL: an
    opening fence, optionally one of the two language tags, white space,
    optionally a newline, the lazily matched group, a closing fence. *)
Definition tag_re : regex :=
  Opt (Alt (Lit (lit "python")) (Lit (lit "pyspark"))).

Definition body_re : regex := Cat (Group LazyDot) (Lit FENCE).

Definition fence_tail_re : regex :=
  Cat (StarClass is_space) (Cat (Opt (Lit [NL])) body_re).

Definition fence_re : regex :=
  Cat (Lit FENCE) (Cat tag_re fence_tail_re).

(* ===================================================================== *)
(** ** Transcript extractor *)
(* ===================================================================== *)

Record message : Type := Message {
  role : option str;
  name : option str;
  content : option str
}.

(** [d.get(key, default)] on an optional field. *)
Definition get (field : option str) (default : str) : str :=
  match field with Some v => v | None => default end.

(** Truth value of a text: it is not empty. *)
Definition truthy (s : str) : bool :=
  match s with [] => false | _ :: _ => true end.

(** The [for] loop of [extract_code_from_chat]: the trimmed contents of the
    messages of [agent_name], appended in the order of the history. *)
Fixpoint code_parts (chat_history : list message) (agent_name : str) : list str :=
  match chat_history with
  | [] => []
  | msg :: rest =>
      let msg_name := get (name msg) [] in
      let content := strip (get (content msg) []) in
      if str_eqb msg_name agent_name && truthy content
      then content :: code_parts rest agent_name
      else code_parts rest agent_name
  end.

Definition extract_code_from_chat (chat_history : list message) (agent_name : str) : str :=
  let parts := code_parts chat_history agent_name in
  match parts with
  | [] => []
  | _ :: _ =>
      let stitched := join [NL] parts in
      let blocks := findall fence_re stitched in
      match blocks with
      | _ :: _ => join [NL; NL] (map strip blocks)
      | [] => stitched
      end
  end.

Fixpoint text_parts (chat_history : list message) (agent_name : str) : list str :=
  match chat_history with
  | [] => []
  | msg :: rest =>
      if str_eqb (get (name msg) []) agent_name then
        let content := strip (get (content msg) []) in
        if truthy content
        then content :: text_parts rest agent_name
        else text_parts rest agent_name
      else text_parts rest agent_name
  end.

Definition extract_text_from_chat (chat_history : list message) (agent_name : str) : str :=
  join [NL] (text_parts chat_history agent_name).

(* ===================================================================== *)
(** ** Artifact writer and pipeline orchestrator *)
(* ===================================================================== *)

Inductive agent : Type := Data_Architect | Cloud_Architect.

Definition agent_name (a : agent) : str :=
  match a with
  | Data_Architect => lit "Data_Architect"
  | Cloud_Architect => lit "Cloud_Architect"
  end.

Definition agent_eqb (a b : agent) : bool :=
  match a, b with
  | Data_Architect, Data_Architect => true
  | Cloud_Architect, Cloud_Architect => true
  | _, _ => false
  end.

(** What a completion call can raise: [raise_for_status] on a non-success
    status, or a reply without [choices[0].message.content]. *)
Inductive py_exception : Type :=
| HTTPError (status : Z)
| ReplyShapeError.

Inductive outcome (A : Type) : Type :=
| Return (a : A)
| Raise (e : py_exception).
Arguments Return {A} a.
Arguments Raise {A} e.

(** The observable steps of a run, in order.  [ECheck] marks a call of
    [local_quality_check] in review cycle [cycle]. *)
Inductive event : Type :=
| EChat (recipient : agent) (prompt : str) (max_turns : nat)
        (result : outcome (list message))
| ECheck (cycle : Z) (code : str)
| EMakedirs (path : str)
| EWrite (path : str) (data : str).

(** [range(lo, hi)] *)
Fixpoint range_from (lo : Z) (n : nat) : list Z :=
  match n with
  | O => []
  | S n' => lo :: range_from (lo + 1) n'
  end.

Definition range (lo hi : Z) : list Z := range_from lo (Z.to_nat (hi - lo)).

(** [posixpath.join(a, b)] *)
Definition path_join (a b : str) : str :=
  if startswith (lit "/") b then b
  else if negb (truthy a) || startswith (lit "/") (rev a) then a ++ b
  else a ++ lit "/" ++ b.

(** The [\s+] substitution of the slug: every maximal run of white space
    becomes one [rep]. [in_run] tells that the previous character was white
    space. *)
Fixpoint sub_space_runs (rep : str) (in_run : bool) (s : str) : str :=
  match s with
  | [] => []
  | c :: t =>
      if is_space c
      then (if in_run then [] else rep) ++ sub_space_runs rep true t
      else c :: sub_space_runs rep false t
  end.

Definition is_lower_or_digit (c : char) : bool :=
  ((97 <=? c) && (c <=? 122)) || ((48 <=? c) && (c <=? 57)).

(** The failure list as the revision request carries it. *)
Definition revision_message (failures : list str) : str :=
  lit "Failures detected. Fix these specific issues:" ++ [NL; NL]
  ++ join [NL] failures ++ [NL; NL]
  ++ lit "Output the complete fixed script in ONE ```python ... ``` block.".

Definition deploy_message (current_script : str) : str :=
  lit "Deployment Target: AWS Glue & Azure Databricks" ++ [NL; NL]
  ++ lit "Approved Script:" ++ [NL] ++ lit "```python" ++ [NL]
  ++ current_script ++ [NL] ++ lit "```".

(** What is written to approved_script.py. *)
Definition script_file (approved : bool) (current_script : str) : str :=
  lit "# Auto-generated by Data_Architect" ++ [NL]
  ++ lit "# Review Status: "
  ++ (if approved then lit "APPROVED" else lit "BEST EFFORT") ++ [NL; NL]
  ++ current_script.

(** What is written to infra_config.txt. *)
Definition infra_file (task cloud_output : str) : str :=
  lit "# Infrastructure Config " ++ [EM_DASH]
  ++ lit " Auto-generated by Cloud_Architect" ++ [NL]
  ++ lit "# Task: " ++ task ++ [NL]
  ++ times 61 80 ++ [NL; NL]
  ++ cloud_output.

Section Pipeline.

(** [str.lower] and [str.upper] follow the Unicode tables outside ASCII;
    the tables are parameters.  (The one rule of [str.lower] that looks at
    the neighbours of a character, for the capital sigma, chooses between
    two code points outside ASCII.) *)
Variable nonascii_lower nonascii_upper : char -> str.

(** The directory of the running program. *)
Variable script_dir : str.

(** The agent framework and the completion service behind it. *)
Variable World : Type.
Variable initiate_chat :
  World -> agent -> str -> nat -> outcome (list message) * World.

Definition lower_char (c : char) : str :=
  if (65 <=? c) && (c <=? 90) then [c + 32]
  else if c <? 128 then [c] else nonascii_lower c.

Definition upper_char (c : char) : str :=
  if (97 <=? c) && (c <=? 122) then [c - 32]
  else if c <? 128 then [c] else nonascii_upper c.

Definition lower (s : str) : str := flat_map lower_char s.
Definition upper (s : str) : str := flat_map upper_char s.

(** The first four statements of [save_conversation]. *)
Definition slug_of (task_message : str) : str :=
  let slug := lower task_message in
  let slug := filter (fun c => is_lower_or_digit c || is_space c) slug in
  let slug := sub_space_runs (lit "_") false (strip slug) in
  firstn 40 slug.

Definition transcript_entry (m : message) : str :=
  let role := upper (get (role m) (lit "unknown")) in
  let name := get (name m) [] in
  let label :=
    if negb (truthy name) then lit "[" ++ role ++ lit "]"
    else lit "[" ++ role ++ lit " " ++ [EM_DASH] ++ lit " "
         ++ upper name ++ lit "]" in
  let content := get (content m) [] in
  label ++ [NL] ++ strip content ++ [NL; NL] ++ times 45 80 ++ [NL; NL].

Definition transcript_file (chat_history : list message) (task_message : str) : str :=
  lit "TASK: " ++ task_message ++ [NL] ++ times 61 80 ++ [NL; NL]
  ++ List.concat (map transcript_entry chat_history).

(** *** The run monad: the world, the trace, and exceptions *)

Record state : Type := State { world : World; trace : list event }.

Definition M (A : Type) : Type := state -> outcome A * state.

Definition ret {A : Type} (a : A) : M A := fun st => (Return a, st).

Definition bind {A B : Type} (m : M A) (f : A -> M B) : M B :=
  fun st =>
    match m st with
    | (Return a, st') => f a st'
    | (Raise e, st') => (Raise e, st')
    end.

Notation "x <- m ;; k" := (bind m (fun x => k))
  (at level 61, m at next level, right associativity).
Notation "m ;;; k" := (bind m (fun _ => k))
  (at level 61, right associativity).

Definition emit (e : event) : M unit :=
  fun st => (Return tt, State (world st) (trace st ++ [e])).

(** [user_proxy.initiate_chat(recipient, message=prompt, max_turns=...)],
    giving the [chat_history] of its result. *)
Definition chat (recipient : agent) (prompt : str) (max_turns : nat)
  : M (list message) :=
  fun st =>
    let '(r, w') := initiate_chat (world st) recipient prompt max_turns in
    (r, State w' (trace st ++ [EChat recipient prompt max_turns r])).

Definition get_output_dir : M str :=
  let output_dir := path_join script_dir (lit "samples") in
  emit (EMakedirs output_dir) ;;;
  ret output_dir.

Definition save_conversation (chat_history : list message)
    (task_message suffix : str) : M str :=
  let filename := slug_of task_message ++ suffix ++ lit ".txt" in
  dir <- get_output_dir ;;
  let output_path := path_join dir filename in
  emit (EWrite output_path (transcript_file chat_history task_message)) ;;;
  ret output_path.

(** The [for cycle in range(1, max_review_cycles + 1)] loop, over the
    cycles still to run.  It gives [approved], [current_script] and
    [all_history] as they stand when the loop is left. *)
Fixpoint review_loop (cycles : list Z) (max_review_cycles : Z)
    (current_script : str) (all_history : list message)
  : M (bool * str * list message) :=
  match cycles with
  | [] => ret (false, current_script, all_history)
  | cycle :: rest =>
      emit (ECheck cycle current_script) ;;;
      let '(passed, failures) := local_quality_check current_script in
      if passed then ret (true, current_script, all_history)
      else if (cycle <? max_review_cycles)%Z then
        rewrite_chat <- chat Data_Architect (revision_message failures) 3 ;;
        review_loop rest max_review_cycles
          (extract_code_from_chat rewrite_chat (lit "Data_Architect"))
          (all_history ++ rewrite_chat)
      else review_loop rest max_review_cycles current_script all_history
  end.

Definition run_engineering_squad (task : str) (max_review_cycles : Z) : M unit :=
  let all_history := [] in
  arch_chat <- chat Data_Architect task 3 ;;
  let current_script := extract_code_from_chat arch_chat (lit "Data_Architect") in
  let all_history := all_history ++ arch_chat in
  r <- review_loop (range 1 (max_review_cycles + 1)) max_review_cycles
         current_script all_history ;;
  let '(approved, current_script, all_history) := r in
  cloud_chat <- chat Cloud_Architect (deploy_message current_script) 2 ;;
  let cloud_output := extract_text_from_chat cloud_chat (lit "Cloud_Architect") in
  let all_history := all_history ++ cloud_chat in
  save_conversation all_history task (lit "_full_squad") ;;;
  dir <- get_output_dir ;;
  let infra_path := path_join dir (lit "infra_config.txt") in
  emit (EWrite infra_path (infra_file task cloud_output)) ;;;
  dir <- get_output_dir ;;
  let script_path := path_join dir (lit "approved_script.py") in
  emit (EWrite script_path (script_file approved current_script)).

(** A run starts with nothing done yet. *)
Definition start (w : World) : state := State w [].

End Pipeline.

Arguments world {World} s.
Arguments trace {World} s.
Arguments State {World} world trace.
Arguments start {World} w.

(** The default of [max_review_cycles]. *)
Definition DEFAULT_MAX_REVIEW_CYCLES : Z := 4.

(* ===================================================================== *)
(** ** Vocabulary of the properties *)
(* ===================================================================== *)

(** [x] holds no fence and does not end in a backtick, so that a fence
    written after [x] is the first one to be found. *)
Definition fence_free (x : str) : bool :=
  negb (contains FENCE (x ++ [BACKTICK; BACKTICK])).

(** The text after the first occurrence of [p] in [s]. *)
Fixpoint after_first (p s : str) : option str :=
  if startswith p s then Some (skipn (List.length p) s)
  else match s with [] => None | _ :: t => after_first p t end.

(** [s] holds an opening fence and, after it, a closing fence. *)
Definition has_fenced_block (s : str) : bool :=
  match after_first FENCE s with
  | Some t => contains FENCE t
  | None => false
  end.

(** A fenced block with the prose that precedes it: the opening fence, the
    language tag (possibly empty), the white space that ends the fence line,
    the body, the closing fence. *)
Record block : Type := Block {
  prose : str;
  tag : str;
  gap : str;
  body : str
}.

Definition render (b : block) : str :=
  prose b ++ FENCE ++ tag b ++ gap b ++ body b ++ FENCE.

Definition recognised (t : str) : Prop :=
  t = [] \/ t = lit "python" \/ t = lit "pyspark".

Definition blank (s : str) : bool := forallb is_space s.

(** The parts of a block are what they are said to be: the prose and the
    body hold no fence, the gap is white space and not empty. *)
Definition delimited (b : block) : Prop :=
  fence_free (prose b) = true /\
  blank (gap b) = true /\ gap b <> [] /\
  fence_free (body b) = true.

Definition well_formed (b : block) : Prop :=
  recognised (tag b) /\ delimited b.

(** [s] does not start with white space. *)
Definition starts_dark (s : str) : Prop :=
  match s with [] => True | c :: _ => is_space c = false end.



(** The messages of [agent_name] that carry text, as a filter. *)
Definition authored_by (agent_name : str) (m : message) : bool :=
  str_eqb (get (name m) []) agent_name && truthy (strip (get (content m) [])).

Definition trimmed_content (m : message) : str := strip (get (content m) []).

(** Counting in a trace. *)
Definition is_chat_with (a : agent) (e : event) : bool :=
  match e with
  | EChat r _ _ _ => agent_eqb r a
  | _ => false
  end.

Definition is_check (e : event) : bool :=
  match e with ECheck _ _ => true | _ => false end.

Definition is_file_effect (e : event) : bool :=
  match e with EMakedirs _ | EWrite _ _ => true | _ => false end.

(** A completion call that raised. *)
Definition is_raised (e : event) : bool :=
  match e with EChat _ _ _ (Raise _) => true | _ => false end.

Definition count_chats (a : agent) (tr : list event) : nat :=
  List.length (filter (is_chat_with a) tr).

Definition count_checks (tr : list event) : nat :=
  List.length (filter is_check tr).

(** Revision requests: the chats with the drafting agent after the first,
    which carries the task. *)
Definition revision_requests (tr : list event) : nat :=
  count_chats Data_Architect tr - 1.

(** The history that the drafting agent's latest chat gave. *)
Fixpoint last_draft (tr : list event) : option (list message) :=
  match tr with
  | [] => None
  | e :: tr' =>
      match last_draft tr' with
      | Some h => Some h
      | None =>
          match e with
          | EChat Data_Architect _ _ (Return h) => Some h
          | _ => None
          end
      end
  end.

(** The texts written to [path], oldest first. *)
Fixpoint written_to (path : str) (tr : list event) : list str :=
  match tr with
  | [] => []
  | EWrite p d :: tr' =>
      if str_eqb p path then d :: written_to path tr' else written_to path tr'
  | _ :: tr' => written_to path tr'
  end.

(** The script that the latest chat of the drafting agent gave. *)
Definition latest_script (tr : list event) : str :=
  match last_draft tr with
  | Some h => extract_code_from_chat h (lit "Data_Architect")
  | None => []
  end.

(** The revision requests that a list of review cycles allows: one for each
    cycle strictly below [max_review_cycles]. *)
Definition budget (max_review_cycles : Z) (cycles : list Z) : nat :=
  List.length (filter (fun c => (c <? max_review_cycles)%Z) cycles).

(** The traces that the review loop can leave, for the cycles it is given:
    the loop is left when the cycles are used up or a check passes or a chat
    raises; a failed check is followed by a revision request in a cycle
    below [max_review_cycles], and by the next cycle otherwise. *)
Inductive loop_shape (max_review_cycles : Z) : list Z -> list event -> Prop :=
| shape_exhausted :
    loop_shape max_review_cycles [] []
| shape_passed cycle rest code :
    fst (local_quality_check code) = true ->
    loop_shape max_review_cycles (cycle :: rest) [ECheck cycle code]
| shape_raised cycle rest code e :
    (cycle < max_review_cycles)%Z ->
    fst (local_quality_check code) = false ->
    loop_shape max_review_cycles (cycle :: rest)
      [ECheck cycle code;
       EChat Data_Architect
         (revision_message (snd (local_quality_check code))) 3 (Raise e)]
| shape_revised cycle rest code h evs :
    (cycle < max_review_cycles)%Z ->
    fst (local_quality_check code) = false ->
    loop_shape max_review_cycles rest evs ->
    loop_shape max_review_cycles (cycle :: rest)
      (ECheck cycle code
       :: EChat Data_Architect
            (revision_message (snd (local_quality_check code))) 3 (Return h)
       :: evs)
| shape_unreported cycle rest code evs :
    (max_review_cycles <= cycle)%Z ->
    fst (local_quality_check code) = false ->
    loop_shape max_review_cycles rest evs ->
    loop_shape max_review_cycles (cycle :: rest) (ECheck cycle code :: evs).

(** The path of a file in the output directory. *)
Definition output_path (script_dir filename : str) : str :=
  path_join (path_join script_dir (lit "samples")) filename.

(** What the last stage of a run adds to the trace once the deployment
    agent has answered: the transcript, the deployment artifact and the
    script artifact, each after [get_output_dir] has made sure of the
    directory. *)
Definition artifacts (nonascii_lower nonascii_upper : char -> str)
    (script_dir task : str) (approved : bool) (current_script : str)
    (all_history : list message) (cloud_output : str) : list event :=
  let dir := path_join script_dir (lit "samples") in
  [EMakedirs dir;
   EWrite
     (output_path script_dir
        (slug_of nonascii_lower task ++ lit "_full_squad" ++ lit ".txt"))
     (transcript_file nonascii_upper all_history task);
   EMakedirs dir;
   EWrite (output_path script_dir (lit "infra_config.txt"))
     (infra_file task cloud_output);
   EMakedirs dir;
   EWrite (output_path script_dir (lit "approved_script.py"))
     (script_file approved current_script)].

(** *** A scripted world: the replies of the completion service are fixed in
    advance and handed out in turn; a run that asks for more gets an error. *)

Definition scripted : Type := list (outcome (list message)).

Definition scripted_chat (w : scripted) (recipient : agent) (prompt : str)
    (max_turns : nat) : outcome (list message) * scripted :=
  match w with
  | [] => (Raise ReplyShapeError, [])
  | r :: w' => (r, w')
  end.

Definition identity_case (c : char) : str := [c].

Definition run_scripted (task : str) (max_review_cycles : Z) (w : scripted)
  : outcome unit * state scripted :=
  run_engineering_squad identity_case identity_case (lit "/app")
    scripted scripted_chat task max_review_cycles (start w).

Definition says (who : string) (text : str) : message :=
  Message (Some (lit "assistant")) (Some (lit who)) (Some text).

Definition SCENARIO_TASK : str :=
  lit "Write a concise PySpark script for 500GB!!".


Definition GOOD_SCRIPT : str :=
  lit "df = spark.read.schema(StructType([])).json(p)" ++ [NL]
  ++ lit "df.withColumn('event_date', to_date(col('event_timestamp')))"
  ++ lit ".write.partitionBy('event_date').parquet(out)".

(** A reply of the drafting agent with [code] in a python fence. *)
Definition draft_reply (code : str) : list message :=
  [Message (Some (lit "user")) (Some (lit "Admin")) (Some (lit "..."));
   says "Data_Architect"
     (lit "Here it is:" ++ [NL] ++ lit "```python" ++ [NL] ++ code ++ [NL]
      ++ lit "```")].

Definition cloud_reply : list message :=
  [says "Cloud_Architect" (lit "--- SECTION 1: AWS Glue (Terraform) ---")].

(** The drafting agent sends a good script at once. *)
Definition WORLD_GOOD : scripted :=
  [Return (draft_reply GOOD_SCRIPT); Return cloud_reply].

(** The drafting agent never sends a script that passes. *)
Definition WORLD_STUBBORN : scripted :=
  [Return (draft_reply (lit "print(1)"));
   Return (draft_reply (lit "print(2)"));
   Return (draft_reply (lit "print(3)"));
   Return (draft_reply (lit "print(4)"));
   Return (draft_reply (lit "print(5)"));
   Return cloud_reply].

(** The chats of the drafting agent yield no content at all. *)
Definition WORLD_SILENT : scripted :=
  [Return []; Return []; Return []; Return []; Return cloud_reply].

(** The completion service fails on the first revision request. *)
Definition WORLD_OUTAGE : scripted :=
  [Return (draft_reply (lit "print(1)")); Raise (HTTPError 503)].

Definition SCRIPT_PATH : str :=
  output_path (lit "/app") (lit "approved_script.py").

(* ===================================================================== *)
(** ** Completion adapter: [EuronClient]

    The client turns the request of the agent framework into one POST to
    the completion service and the reply into a response object.  The
    service is a parameter: a function from the payload to what
    [requests.post] gives back. *)
(* ===================================================================== *)

Module EuronClient.

(** A value under a key of a request dict: the key is absent, or it holds
    [None], or it holds a text. *)
Inductive field : Type :=
| Absent
| PyNone
| Text (s : str).

(** [d.get(key, default)]: the default stands in for an absent key only. *)
Definition dict_get (f : field) (default : str) : option str :=
  match f with
  | Absent => Some default
  | PyNone => None
  | Text s => Some s
  end.

(** A message of [params["messages"]], with the two keys that [create]
    reads. *)
Record request_message : Type := RequestMessage {
  rm_role : field;
  rm_content : field
}.

(** A message as it is sent: [{"role": ..., "content": ...}]; [None] is
    Python's [None]. *)
Record wire_message : Type := WireMessage {
  wire_role : option str;
  wire_content : option str
}.

(** [l[-n:]] for a positive [n]. *)
Definition last_n {A : Type} (n : nat) (l : list A) : list A :=
  skipn (List.length l - n) l.

(** The list comprehension of [create] over [messages[-5:]]. *)
Definition format_messages (messages : list request_message) : list wire_message :=
  let limited_messages := last_n 5 messages in
  map (fun m => WireMessage (dict_get (rm_role m) (lit "user"))
                            (dict_get (rm_content m) []))
      limited_messages.

(** A decoded JSON value.  A dict is the list of its items (its keys are
    distinct); a number keeps its literal. *)
Inductive json : Type :=
| JNull
| JBool (b : bool)
| JNumber (literal : str)
| JString (s : str)
| JList (items : list json)
| JDict (items : list (str * json)).

(** What [create] can raise. *)
Inductive client_error : Type :=
| RequestFailed                    (* [requests.post] itself raised *)
| StatusError (status_code : Z)    (* [raise_for_status] *)
| JSONDecodeError                  (* [response.json()] *)
| KeyError (key : str)
| KeyErrorInt (key : Z)
| IndexError
| TypeError.

(** What [requests.post] gives back. *)
Inductive reply : Type :=
| NoReply
| Reply (status_code : Z) (body : option json).

Fixpoint lookup (key : str) (items : list (str * json)) : option json :=
  match items with
  | [] => None
  | (k, v) :: rest => if str_eqb k key then Some v else lookup key rest
  end.

(** [v[key]] for a text key. *)
Definition subscript (v : json) (key : str) : client_error + json :=
  match v with
  | JDict items =>
      match lookup key items with
      | Some x => inr x
      | None => inl (KeyError key)
      end
  | _ => inl TypeError
  end.

(** [v[0]] *)
Definition subscript0 (v : json) : client_error + json :=
  match v with
  | JList [] => inl IndexError
  | JList (x :: _) => inr x
  | JString [] => inl IndexError
  | JString (c :: _) => inr (JString [c])
  | JDict _ => inl (KeyErrorInt 0)
  | _ => inl TypeError
  end.

Record config : Type := Config {
  cfg_api_key : str;
  cfg_model : str;
  cfg_max_tokens : option Z     (* [config.get("max_tokens", 1200)] *)
}.

Record client : Type := Client {
  api_key : str;
  model_name : str;
  max_out_tokens : Z;
  endpoint : str
}.

(** [__init__] *)
Definition init (c : config) : client :=
  Client (cfg_api_key c) (cfg_model c)
    (match cfg_max_tokens c with Some n => n | None => 1200%Z end)
    (lit "https://api.euron.one/api/v1/euri/chat/completions").

Record payload : Type := Payload {
  p_model : str;
  p_messages : list wire_message;
  p_max_tokens : Z;
  p_temperature : Z
}.

Record request : Type := Request {
  req_url : str;
  req_authorization : str;
  req_content_type : str;
  req_json : payload
}.

(** The response object of [create]: the contents of its choices, and the
    model. *)
Record mock_response : Type := MockResponse {
  choices : list json;
  model : str
}.

(** The request that [create] posts; [messages] is
    [params.get("messages", [])], [None] for an absent key. *)
Definition build_request (self : client) (messages : option (list request_message))
  : request :=
  let messages := match messages with Some l => l | None => [] end in
  Request (endpoint self)
    (lit "Bearer " ++ api_key self)
    (lit "application/json")
    (Payload (model_name self) (format_messages messages)
       (max_out_tokens self) 0%Z).

(** The lines of [create] after the POST. *)
Definition read_reply (self : client) (r : reply) : client_error + mock_response :=
  match r with
  | NoReply => inl RequestFailed
  | Reply status_code body =>
      if ((400 <=? status_code) && (status_code <? 600))%Z
      then inl (StatusError status_code)
      else
        match body with
        | None => inl JSONDecodeError
        | Some data =>
            match subscript data (lit "choices") with
            | inl e => inl e
            | inr cs =>
                match subscript0 cs with
                | inl e => inl e
                | inr c =>
                    match subscript c (lit "message") with
                    | inl e => inl e
                    | inr m =>
                        match subscript m (lit "content") with
                        | inl e => inl e
                        | inr content =>
                            inr (MockResponse [content] (model_name self))
                        end
                    end
                end
            end
        end
  end.

Definition create (post : request -> reply) (self : client)
    (messages : option (list request_message)) : client_error + mock_response :=
  read_reply self (post (build_request self messages)).

(** [message_retrieval] *)
Definition message_retrieval (response : mock_response) : list json :=
  choices response.

End EuronClient.

(* ===================================================================== *)
(** ** More vocabulary *)
(* ===================================================================== *)

Definition UNDERSCORE : char := 95.

Definition is_slug_char (c : char) : bool :=
  is_lower_or_digit c || (c =? UNDERSCORE).

(** ASCII letters and digits. *)
Definition is_ascii_alnum (c : char) : bool :=
  ((65 <=? c) && (c <=? 90)) || is_lower_or_digit c.

(** No two neighbours of [s] are both [c]. *)
Fixpoint no_adjacent (c : char) (s : str) : bool :=
  match s with
  | x :: t =>
      match t with
      | y :: _ => negb ((x =? c) && (y =? c)) && no_adjacent c t
      | [] => true
      end
  | [] => true
  end.

(** The histories that the chats of a trace gave, in order. *)
Fixpoint histories_of (tr : list event) : list message :=
  match tr with
  | [] => []
  | EChat _ _ _ (Return h) :: tr' => h ++ histories_of tr'
  | _ :: tr' => histories_of tr'
  end.

(** The transcript path of a task. *)
Definition transcript_path (nonascii_lower : char -> str)
    (script_dir task : str) : str :=
  output_path script_dir
    (slug_of nonascii_lower task ++ lit "_full_squad" ++ lit ".txt").

(** [s] holds no underscore. *)
Definition clean (s : str) : bool :=
  forallb (fun c => negb (c =? UNDERSCORE)) s.

(** [p] is not empty and neither starts nor ends with white space. *)
Definition trimmed (p : str) : Prop :=
  p <> [] /\ starts_dark p /\ starts_dark (rev p).

(** *** Sample services and requests *)

Definition SERVICE_OK (r : EuronClient.request) : EuronClient.reply :=
  EuronClient.Reply 200
    (Some (EuronClient.JDict
       [(lit "id", EuronClient.JString (lit "c1"));
        (lit "choices",
         EuronClient.JList
           [EuronClient.JDict
              [(lit "index", EuronClient.JNumber (lit "0"));
               (lit "message",
                EuronClient.JDict
                  [(lit "role", EuronClient.JString (lit "assistant"));
                   (lit "content", EuronClient.JString (lit "hello"))])];
            EuronClient.JDict []])])).

Definition SERVICE_DOWN (r : EuronClient.request) : EuronClient.reply :=
  EuronClient.Reply 503 (Some (EuronClient.JDict [])).

Definition SAMPLE_CLIENT : EuronClient.client :=
  EuronClient.init
    (EuronClient.Config (lit "key") (lit "qwen/qwen3-32b") None).

Definition SAMPLE_OLD : EuronClient.request_message :=
  EuronClient.RequestMessage (EuronClient.Text (lit "system"))
    (EuronClient.Text (lit "be brief")).

Definition SAMPLE_RECENT : list EuronClient.request_message :=
  [EuronClient.RequestMessage (EuronClient.Text (lit "user"))
     (EuronClient.Text (lit "one"));
   EuronClient.RequestMessage EuronClient.Absent
     (EuronClient.Text (lit "two"));
   EuronClient.RequestMessage (EuronClient.Text (lit "assistant"))
     EuronClient.PyNone;
   EuronClient.RequestMessage (EuronClient.Text (lit "user"))
     EuronClient.Absent;
   EuronClient.RequestMessage (EuronClient.Text (lit "assistant"))
     (EuronClient.Text (lit "five"))].

(* ===================================================================== *)
(** * Properties *)
(* ===================================================================== *)

#[local] Arguments N.eqb : simpl never.
#[local] Arguments N.leb : simpl never.
#[local] Arguments N.ltb : simpl never.

(** ** Text *)

Lemma startswith_app (p s : str) : startswith p (p ++ s) = true.
Proof.
  induction p as [|x p IH]; simpl; [reflexivity|].
  now rewrite N.eqb_refl, IH.
Qed.

Lemma startswith_elim (p s : str) :
  startswith p s = true -> s = p ++ skipn (List.length p) s.
Proof.
  revert s; induction p as [|x p IH]; intros [|y s] H; simpl in *;
    try reflexivity; try discriminate.
  apply andb_true_iff in H as [Hxy Hp].
  apply N.eqb_eq in Hxy; subst y.
  f_equal; now apply IH.
Qed.

Lemma startswith_long (p a b : str) :
  (List.length p <= List.length a)%nat ->
  startswith p (a ++ b) = startswith p a.
Proof.
  revert a; induction p as [|x p IH]; intros [|y a] Hlen; simpl in *;
    try reflexivity; try lia.
  rewrite IH by lia; reflexivity.
Qed.

Lemma strip_prefix_app (p s : str) : strip_prefix p (p ++ s) = Some s.
Proof.
  unfold strip_prefix.
  rewrite startswith_app, skipn_app, skipn_all, Nat.sub_diag; reflexivity.
Qed.

Lemma strip_prefix_elim (p s s' : str) :
  strip_prefix p s = Some s' -> s = p ++ s'.
Proof.
  unfold strip_prefix; destruct (startswith p s) eqn:E; [|discriminate].
  intros [= <-]; now apply startswith_elim.
Qed.

Lemma strip_prefix_fail (p s : str) :
  startswith p s = false -> strip_prefix p s = None.
Proof. unfold strip_prefix; now intros ->. Qed.

Lemma contains_here (p s : str) : contains p (p ++ s) = true.
Proof.
  destruct p as [|x p]; destruct s as [|y s]; simpl;
    rewrite ?app_nil_r, ?N.eqb_refl; try reflexivity;
    simpl; rewrite ?startswith_app; try reflexivity.
  - pose proof (startswith_app p []) as H; rewrite app_nil_r in H.
    now rewrite H.
Qed.

Lemma contains_app_r (p a b : str) :
  contains p b = true -> contains p (a ++ b) = true.
Proof.
  intros H; induction a as [|x a IH]; simpl; [assumption|].
  rewrite IH; apply orb_true_r.
Qed.

(** [contains] is the substring relation. *)
Lemma contains_intro (p a b : str) : contains p (a ++ p ++ b) = true.
Proof. apply contains_app_r, contains_here. Qed.

Lemma contains_elim (p s : str) :
  contains p s = true -> exists a b, s = a ++ p ++ b.
Proof.
  induction s as [|c s IH]; simpl; intros H.
  - rewrite orb_false_r in H. apply startswith_elim in H.
    exists [], (skipn (List.length p) []); assumption.
  - apply orb_true_iff in H as [H|H].
    + apply startswith_elim in H.
      exists [], (skipn (List.length p) (c :: s)); assumption.
    + destruct (IH H) as (a & b & ->). now exists (c :: a), b.
Qed.

Lemma contains_app_l (p a b : str) :
  contains p a = true -> contains p (a ++ b) = true.
Proof.
  intros H; apply contains_elim in H as (u & v & ->).
  rewrite <- !app_assoc; apply contains_intro.
Qed.

Lemma contains_head (p : str) (c : char) (s : str) :
  contains p (c :: s) = false ->
  startswith p (c :: s) = false /\ contains p s = false.
Proof. simpl; intros H; now apply orb_false_iff in H. Qed.

(** ** Quality gate *)

(** The failure list is the list of the rules, each kept when it fails. *)
Lemma local_quality_check_failures (code : str) :
  snd (local_quality_check code) =
    (if contains (lit "partitionBy") code then [] else [RULE1_FAIL])
    ++ (if contains (lit "to_date") code then [] else [RULE2_FAIL])
    ++ (if contains (lit "StructType") code || contains (lit "StructField") code
        then [] else [RULE3_FAIL]).
Proof.
  unfold local_quality_check.
  destruct (contains (lit "partitionBy") code),
           (contains (lit "to_date") code),
           (contains (lit "StructType") code),
           (contains (lit "StructField") code); reflexivity.
Qed.

(** C2. [local_quality_check] passes exactly when the text contains
    'partitionBy', contains 'to_date', and contains 'StructType' or
    'StructField'.  Each rule is evaluated whatever the others gave: the
    failure list is the concatenation, in the order rule 1, rule 2, rule 3,
    of the message of each failing rule.  A text with none of the markers
    gives the three messages in that order, and each message starts with the
    identifier of its rule. *)
Theorem local_quality_check_spec (code : str) :
  let rule1 := contains (lit "partitionBy") code in
  let rule2 := contains (lit "to_date") code in
  let rule3 := contains (lit "StructType") code
               || contains (lit "StructField") code in
  (fst (local_quality_check code) = true
     <-> rule1 = true /\ rule2 = true /\ rule3 = true)
  /\ snd (local_quality_check code) =
       (if rule1 then [] else [RULE1_FAIL])
       ++ (if rule2 then [] else [RULE2_FAIL])
       ++ (if rule3 then [] else [RULE3_FAIL])
  /\ (fst (local_quality_check code) = true
        <-> snd (local_quality_check code) = [])
  /\ (rule1 = false -> rule2 = false -> rule3 = false ->
      local_quality_check code = (false, [RULE1_FAIL; RULE2_FAIL; RULE3_FAIL]))
  /\ startswith (lit "[RULE 1]") RULE1_FAIL = true
  /\ startswith (lit "[RULE 2]") RULE2_FAIL = true
  /\ startswith (lit "[RULE 3]") RULE3_FAIL = true.
Proof.
  cbv zeta.
  rewrite local_quality_check_failures.
  unfold local_quality_check.
  destruct (contains (lit "partitionBy") code),
           (contains (lit "to_date") code),
           (contains (lit "StructType") code),
           (contains (lit "StructField") code); simpl;
    repeat split; try reflexivity; try discriminate;
    try (intros (? & ? & ?); discriminate); try (intros; discriminate).
Qed.

(** The scenario of C2: none of the markers. *)
Lemma local_quality_check_spec_witness :
  local_quality_check (lit "print('hello')")
  = (false, [RULE1_FAIL; RULE2_FAIL; RULE3_FAIL]).
Proof.
  apply (local_quality_check_spec (lit "print('hello')")); reflexivity.
Defined.

(** The scenario with the three markers present. *)
Example local_quality_check_good :
  local_quality_check GOOD_SCRIPT = (true, []).
Proof. reflexivity. Qed.

(** ** Filename slug *)

(** The scenario value of C4 as the specification gives it is not what
    [save_conversation] computes. *)
Lemma slug_scenario_counterexample :
  slug_of identity_case SCENARIO_TASK
  <> lit "write_a_concise_pyspark_script_for_500".
Proof. vm_compute. discriminate. Qed.

(** C4 (amended). For the task "Write a concise PySpark script for 500GB!!"
    the slug (lower-cased, characters other than a-z, 0-9 and white space
    removed, white space runs turned into one underscore, cut to 40
    characters) is write_a_concise_pyspark_script_for_500gb: the text before
    the cut has exactly 40 characters, so the cut removes nothing. *)
Theorem slug_scenario (nonascii_lower : char -> str) :
  slug_of nonascii_lower SCENARIO_TASK
  = lit "write_a_concise_pyspark_script_for_500gb"
  /\ List.length (slug_of nonascii_lower SCENARIO_TASK) = 40%nat.
Proof. split; vm_compute; reflexivity. Qed.

(** ** White space *)

Lemma lstrip_split (s : str) :
  exists ws, s = ws ++ lstrip s /\ blank ws = true.
Proof.
  induction s as [|c s (ws & Hs & Hws)]; simpl.
  - now exists [].
  - destruct (is_space c) eqn:E.
    + exists (c :: ws); simpl. rewrite E, Hws. split; [congruence|reflexivity].
    + now exists [].
Qed.

Lemma lstrip_dark (s : str) : starts_dark (lstrip s).
Proof.
  induction s as [|c s IH]; simpl; [exact I|].
  destruct (is_space c) eqn:E; [assumption|exact E].
Qed.

Lemma lstrip_of_dark (s : str) : starts_dark s -> lstrip s = s.
Proof. destruct s as [|c s]; simpl; [reflexivity|now intros ->]. Qed.

Lemma lstrip_idem (s : str) : lstrip (lstrip s) = lstrip s.
Proof. apply lstrip_of_dark, lstrip_dark. Qed.

Lemma strip_lstrip (s : str) : strip (lstrip s) = strip s.
Proof. unfold strip; now rewrite lstrip_idem. Qed.

Lemma lstrip_blank_app (ws s : str) :
  blank ws = true -> lstrip (ws ++ s) = lstrip s.
Proof.
  induction ws as [|c ws IH]; simpl; [reflexivity|].
  intros H; apply andb_true_iff in H as [-> H]; auto.
Qed.

Lemma is_space_backtick : is_space BACKTICK = false.
Proof. reflexivity. Qed.

Lemma starts_dark_app (x y : str) :
  starts_dark x -> starts_dark y -> starts_dark (x ++ y).
Proof. destruct x; simpl; auto. Qed.

(** ** Fences *)

Lemma fence_free_tail (c : char) (x : str) :
  fence_free (c :: x) = true -> fence_free x = true.
Proof.
  unfold fence_free; rewrite !negb_true_iff; simpl app.
  intros H; now apply contains_head in H.
Qed.

Lemma fence_free_no_start (c : char) (x rest : str) :
  fence_free (c :: x) = true ->
  startswith FENCE ((c :: x) ++ FENCE ++ rest) = false.
Proof.
  unfold fence_free; rewrite negb_true_iff; intros H.
  apply contains_head in H as [H _].
  change ((c :: x) ++ FENCE ++ rest)
    with ((c :: x) ++ [BACKTICK; BACKTICK] ++ BACKTICK :: rest).
  rewrite app_assoc, startswith_long; [exact H|].
  simpl; rewrite length_app; simpl; lia.
Qed.

Lemma fence_free_lstrip (x : str) :
  fence_free x = true -> fence_free (lstrip x) = true.
Proof.
  induction x as [|c x IH]; simpl; [trivial|].
  destruct (is_space c); [|trivial].
  intros H; apply IH; now apply fence_free_tail in H.
Qed.


(** ** The matcher *)

Lemma lazy_unfold (s : str) (k : str -> answer) :
  lazy s k = orelse (k s) match s with [] => None | _ :: t => lazy t k end.
Proof. destruct s; reflexivity. Qed.

(** The greedy star takes all the white space in front of a dark text, when
    what follows can then be matched. *)
Lemma greedy_blank (ws t : str) (k : str -> answer) (r : option str * str) :
  blank ws = true -> starts_dark t -> k t = Some r ->
  greedy is_space (ws ++ t) k = Some r.
Proof.
  intros Hws Ht Hk; induction ws as [|c ws IH]; simpl in *.
  - destruct t as [|c t]; simpl in *; [assumption|now rewrite Ht].
  - apply andb_true_iff in Hws as [-> Hws]. now rewrite IH.
Qed.

(** The lazy star stops in front of the first fence. *)
Lemma lazy_to_fence (K : str -> str -> answer) (x rest : str)
    (r : option str * str) :
  fence_free x = true ->
  K (FENCE ++ rest) rest = Some r ->
  lazy (x ++ FENCE ++ rest)
    (fun s' => match strip_prefix FENCE s' with
               | Some s3 => K s' s3
               | None => None
               end) = Some r.
Proof.
  intros Hx HK; induction x as [|c x IH].
  - rewrite lazy_unfold. change ([] ++ FENCE ++ rest) with (FENCE ++ rest).
    cbv beta. now rewrite strip_prefix_app, HK.
  - rewrite lazy_unfold. cbv beta.
    rewrite strip_prefix_fail by now apply fence_free_no_start.
    cbn [orelse app]. apply IH. now apply fence_free_tail in Hx.
Qed.

Lemma match_body (x rest : str) (g : option str) :
  fence_free x = true ->
  rmatch body_re (x ++ FENCE ++ rest) g accept = Some (Some x, rest).
Proof.
  intros Hx. unfold body_re; cbn [rmatch].
  apply (lazy_to_fence
           (fun s' s3 =>
              accept s3
                (Some (firstn (List.length (x ++ FENCE ++ rest) - List.length s')
                              (x ++ FENCE ++ rest)))));
    [assumption|].
  unfold accept. rewrite length_app, Nat.add_sub.
  now rewrite firstn_app, firstn_all, Nat.sub_diag, app_nil_r.
Qed.

Lemma strip_prefix_nl_dark (s : str) :
  starts_dark s -> strip_prefix [NL] s = None.
Proof.
  destruct s as [|c s]; simpl; intros H; [reflexivity|].
  apply strip_prefix_fail; simpl.
  destruct (N.eqb_spec NL c) as [<-|]; [discriminate H|reflexivity].
Qed.

Lemma starts_dark_fence (x rest : str) :
  starts_dark x -> starts_dark (x ++ FENCE ++ rest).
Proof. intros H; apply starts_dark_app; [assumption|reflexivity]. Qed.

(** After the tag: white space, then a dark body up to the first fence. *)
Lemma match_fence_tail (ws x rest : str) (g : option str) :
  blank ws = true -> starts_dark x -> fence_free x = true ->
  rmatch fence_tail_re (ws ++ x ++ FENCE ++ rest) g accept
  = Some (Some x, rest).
Proof.
  intros Hws Hd Hx. unfold fence_tail_re; cbn [rmatch].
  apply greedy_blank; [assumption|now apply starts_dark_fence|].
  rewrite strip_prefix_nl_dark by now apply starts_dark_fence.
  cbn [orelse]. now apply match_body.
Qed.

Lemma space_not_in (p : str) (c : char) :
  forallb (fun x => negb (is_space x)) p = true ->
  is_space c = true ->
  forallb (fun x => negb (x =? c)) p = true.
Proof.
  intros Hp Hc; induction p as [|x p IH]; simpl in *; [reflexivity|].
  apply andb_true_iff in Hp as [Hx Hp]. rewrite IH by assumption.
  destruct (N.eqb_spec x c) as [->|]; [|reflexivity].
  now rewrite Hc in Hx.
Qed.

Lemma startswith_cut (p t : str) (c : char) (rest : str) :
  startswith p t = false ->
  forallb (fun x => negb (x =? c)) p = true ->
  startswith p (t ++ c :: rest) = false.
Proof.
  revert t; induction p as [|x p IH]; intros t Ht Hp; [discriminate|].
  simpl in Hp; apply andb_true_iff in Hp as [Hx Hp].
  destruct t as [|y t]; simpl in *.
  - apply negb_true_iff in Hx. now rewrite Hx.
  - destruct (x =? y); simpl in *; [now apply IH|reflexivity].
Qed.

Lemma startswith_nil_false (x : char) (p : str) : startswith (x :: p) [] = false.
Proof. reflexivity. Qed.

(** A tag that is not there, or that white space cuts short, is not taken
    for one of the two tags of the pattern. *)
Lemma tag_alternatives_fail (t ws rest : str) (k : cont) :
  startswith (lit "python") t = false ->
  startswith (lit "pyspark") t = false ->
  blank ws = true -> ws <> [] ->
  rmatch tag_re (t ++ ws ++ rest) None k = k (t ++ ws ++ rest) None.
Proof.
  intros Hpy Hps Hws Hne.
  destruct ws as [|c ws]; [congruence|].
  simpl in Hws; apply andb_true_iff in Hws as [Hc _].
  unfold tag_re; cbn [rmatch].
  rewrite !strip_prefix_fail; [reflexivity| |];
    simpl app; apply startswith_cut; try assumption;
    now apply space_not_in.
Qed.

(** A fence with one of the two tags, or none: the tag and the white space
    after it are passed over, the group is the body from its first dark
    character on. *)
Lemma match_fence_recognised (t ws x rest : str) :
  recognised t -> blank ws = true -> ws <> [] -> fence_free x = true ->
  match_here fence_re (FENCE ++ t ++ ws ++ x ++ FENCE ++ rest)
  = Some (Some (lstrip x), rest).
Proof.
  intros Ht Hws Hne Hx.
  assert (Htail : forall g,
             rmatch fence_tail_re (ws ++ x ++ FENCE ++ rest) g accept
             = Some (Some (lstrip x), rest)).
  { intros g. destruct (lstrip_split x) as (ws' & Hsplit & Hws').
    rewrite Hsplit at 1. rewrite <- (app_assoc ws'), app_assoc.
    apply match_fence_tail.
    - unfold blank in *. now rewrite forallb_app, Hws, Hws'.
    - apply lstrip_dark.
    - now apply fence_free_lstrip. }
  unfold match_here, fence_re; cbn [rmatch].
  rewrite strip_prefix_app.
  destruct Ht as [-> | [-> | ->]].
  - rewrite (tag_alternatives_fail [] ws); try assumption;
      try reflexivity. apply Htail.
  - unfold tag_re; cbn [rmatch].
    rewrite strip_prefix_app, Htail. reflexivity.
  - unfold tag_re; cbn [rmatch].
    rewrite (strip_prefix_fail (lit "python")) by reflexivity.
    rewrite strip_prefix_app, Htail. reflexivity.
Qed.




(** *** What a match consumed *)

Lemma greedy_sound (p : char -> bool) (s : str) (k : str -> answer)
    (r : option str * str) :
  greedy p s k = Some r -> exists u s', s = u ++ s' /\ k s' = Some r.
Proof.
  induction s as [|c s IH]; simpl; intros H.
  - now exists [], [].
  - destruct (p c); [|now exists [], (c :: s)].
    destruct (greedy p s k) eqn:E; simpl in H.
    + destruct (IH H) as (u & s' & -> & Hk). now exists (c :: u), s'.
    + now exists [], (c :: s).
Qed.

Lemma lazy_sound (s : str) (k : str -> answer) (r : option str * str) :
  lazy s k = Some r -> exists u s', s = u ++ s' /\ k s' = Some r.
Proof.
  induction s as [|c s IH]; rewrite lazy_unfold; intros H.
  - destruct (k []) eqn:E; simpl in H; [|discriminate].
    exists [], []; now rewrite E.
  - destruct (k (c :: s)) eqn:E; simpl in H.
    + exists [], (c :: s); now rewrite E.
    + destruct (IH H) as (u & s' & -> & Hk). now exists (c :: u), s'.
Qed.

(** Whatever the pattern, a match splits the text into what was consumed
    and the text handed to the continuation. *)
Lemma rmatch_sound (r : regex) :
  forall (s : str) (g : option str) (k : cont) (res : option str * str),
    rmatch r s g k = Some res ->
    exists u s' g', s = u ++ s' /\ k s' g' = Some res.
Proof.
  induction r as [l|r1 IH1 r2 IH2|r1 IH1 r2 IH2|r1 IH1|p| |r1 IH1];
    intros s g k res H; cbn [rmatch] in H.
  - destruct (strip_prefix l s) as [s'|] eqn:E; [|discriminate].
    apply strip_prefix_elim in E. now exists l, s', g.
  - apply IH1 in H as (u1 & s1 & g1 & -> & H).
    apply IH2 in H as (u2 & s2 & g2 & -> & H).
    exists (u1 ++ u2), s2, g2. now rewrite app_assoc.
  - destruct (rmatch r1 s g k) eqn:E; simpl in H.
    + rewrite <- E in H. now apply IH1 in H.
    + now apply IH2 in H.
  - destruct (rmatch r1 s g k) eqn:E; simpl in H.
    + rewrite <- E in H. now apply IH1 in H.
    + now exists [], s, g.
  - apply greedy_sound in H as (u & s' & -> & H). now exists u, s', g.
  - apply lazy_sound in H as (u & s' & -> & H). now exists u, s', g.
  - apply IH1 in H as (u & s' & g' & -> & H). eauto.
Qed.

Lemma body_match_shape (s : str) (g : option str) (res : option str * str) :
  rmatch body_re s g accept = Some res -> exists u, s = u ++ FENCE ++ snd res.
Proof.
  unfold body_re; cbn [rmatch]; intros H.
  apply lazy_sound in H as (u & s' & -> & H).
  destruct (strip_prefix FENCE s') as [s6|] eqn:E; [|discriminate].
  apply strip_prefix_elim in E; subst s'.
  unfold accept in H; injection H as <-. now exists u.
Qed.

(** A match of the fence pattern starts with a fence and ends with a later
    one. *)
Lemma fence_match_shape (s : str) (g : option str) (rest : str) :
  match_here fence_re s = Some (g, rest) ->
  exists m, s = FENCE ++ m ++ FENCE ++ rest.
Proof.
  unfold match_here, fence_re; cbn [rmatch]; intros H.
  destruct (strip_prefix FENCE s) as [s1|] eqn:E; [|discriminate].
  apply strip_prefix_elim in E; subst s.
  apply rmatch_sound in H as (u1 & s2 & g2 & -> & H).
  unfold fence_tail_re in H; cbn [rmatch] in H.
  apply greedy_sound in H as (u2 & s3 & -> & H).
  destruct (strip_prefix [NL] s3) as [s4|] eqn:E.
  - apply strip_prefix_elim in E; subst s3.
    destruct (rmatch body_re s4 g2 accept) eqn:E4; cbn [orelse] in H.
    + rewrite H in E4. apply body_match_shape in E4 as (u4 & ->).
      exists (u1 ++ u2 ++ [NL] ++ u4). now rewrite <- !app_assoc.
    + apply body_match_shape in H as (u4 & E5).
      exists (u1 ++ u2 ++ u4). rewrite E5. now rewrite <- !app_assoc.
  - cbn [orelse] in H. apply body_match_shape in H as (u4 & ->).
    exists (u1 ++ u2 ++ u4). now rewrite <- !app_assoc.
Qed.

(** The pattern never matches the empty text: a match holds two fences. *)
Lemma fence_match_consumes (s : str) (g : option str) (rest : str) :
  match_here fence_re s = Some (g, rest) ->
  (List.length rest + 6 <= List.length s)%nat.
Proof.
  intros H; apply fence_match_shape in H as (m & ->).
  rewrite !length_app; simpl; lia.
Qed.

(** *** Fenced blocks in a text *)

Lemma after_first_unfold (p s : str) :
  after_first p s =
    if startswith p s then Some (skipn (List.length p) s)
    else match s with [] => None | _ :: t => after_first p t end.
Proof. destruct s; reflexivity. Qed.

Lemma after_first_elim (p s t : str) :
  after_first p s = Some t -> exists a, s = a ++ p ++ t.
Proof.
  induction s as [|c s IH]; rewrite after_first_unfold;
    destruct (startswith p _) eqn:E; intros H; try discriminate.
  - injection H as <-. exists []. now apply startswith_elim.
  - injection H as <-. exists []. now apply startswith_elim.
  - destruct (IH H) as (a & ->). now exists (c :: a).
Qed.

Lemma has_fenced_block_intro (a m c : str) :
  has_fenced_block (a ++ FENCE ++ m ++ FENCE ++ c) = true.
Proof.
  unfold has_fenced_block.
  induction a as [|x a IH].
  - change ([] ++ FENCE ++ m ++ FENCE ++ c) with (FENCE ++ m ++ FENCE ++ c).
    rewrite after_first_unfold, startswith_app, skipn_app.
    rewrite skipn_all, Nat.sub_diag. cbn [skipn app]. apply contains_intro.
  - rewrite after_first_unfold.
    destruct (startswith FENCE _) eqn:E; [|exact IH].
    replace ((x :: a) ++ FENCE ++ m ++ FENCE ++ c)
      with (((x :: a) ++ FENCE ++ m) ++ FENCE ++ c)
      by now rewrite <- !app_assoc.
    rewrite skipn_app.
    apply contains_app_r.
    assert (Hlen : (List.length FENCE
                    - List.length ((x :: a) ++ FENCE ++ m) = 0)%nat).
    { rewrite !length_app. change (List.length FENCE) with 3%nat. lia. }
    rewrite Hlen. apply contains_here.
Qed.

(** [has_fenced_block] says that the text holds two fences, one after the
    other. *)
Lemma has_fenced_block_spec (s : str) :
  has_fenced_block s = true <->
  exists a m c, s = a ++ FENCE ++ m ++ FENCE ++ c.
Proof.
  split.
  - unfold has_fenced_block.
    destruct (after_first FENCE s) as [t|] eqn:E; [|discriminate].
    intros H. apply after_first_elim in E as (a & ->).
    apply contains_elim in H as (m & c & ->). now exists a, m, c.
  - intros (a & m & c & ->). apply has_fenced_block_intro.
Qed.

(** *** [findall] *)

Lemma findall_skip (r : regex) (u rest : str) :
  findall_from r (List.length u) (u ++ rest) = findall_from r 0 rest.
Proof. induction u as [|c u IH]; simpl; [reflexivity|exact IH]. Qed.

Lemma findall_miss (r : regex) (c : char) (t : str) :
  match_here r (c :: t) = None ->
  findall_from r 0 (c :: t) = findall_from r 0 t.
Proof. intros H; cbn [findall_from]; now rewrite H. Qed.

Lemma findall_hit (r : regex) (c : char) (t : str) (g : option str) (rest : str) :
  match_here r (c :: t) = Some (g, rest) ->
  findall_from r 0 (c :: t)
  = match g with Some b => b | None => [] end
    :: findall_from r (List.length (c :: t) - List.length rest - 1) t.
Proof. intros H; cbn [findall_from]; now rewrite H. Qed.

(** Prose in front of a fence is passed over. *)
Lemma findall_prose (pre rest : str) :
  fence_free pre = true ->
  findall_from fence_re 0 (pre ++ FENCE ++ rest)
  = findall_from fence_re 0 (FENCE ++ rest).
Proof.
  intros Hpre; induction pre as [|c pre IH]; [reflexivity|].
  change ((c :: pre) ++ FENCE ++ rest) with (c :: pre ++ FENCE ++ rest).
  rewrite findall_miss.
  - apply IH. now apply fence_free_tail in Hpre.
  - unfold match_here, fence_re; cbn [rmatch].
    pose proof (fence_free_no_start c pre rest Hpre) as E.
    change ((c :: pre) ++ FENCE ++ rest) with (c :: pre ++ FENCE ++ rest) in E.
    now rewrite (strip_prefix_fail _ _ E).
Qed.

(** A fenced block behind prose is found, and the scan goes on after its
    closing fence. [m] is what lies between the two fences. *)
Lemma findall_block (pre m rest cap : str) :
  fence_free pre = true ->
  match_here fence_re (FENCE ++ m ++ FENCE ++ rest) = Some (Some cap, rest) ->
  findall_from fence_re 0 (pre ++ FENCE ++ m ++ FENCE ++ rest)
  = cap :: findall_from fence_re 0 rest.
Proof.
  intros Hpre Hm. rewrite findall_prose by assumption.
  change (FENCE ++ m ++ FENCE ++ rest)
    with (BACKTICK :: [BACKTICK; BACKTICK] ++ m ++ FENCE ++ rest) in *.
  rewrite (findall_hit _ _ _ _ _ Hm). f_equal.
  assert (Hlen : (List.length
                    (BACKTICK :: [BACKTICK; BACKTICK] ++ m ++ FENCE ++ rest)
                  - List.length rest - 1
                  = List.length ([BACKTICK; BACKTICK] ++ m ++ FENCE))%nat).
  { cbn [List.length]. rewrite !length_app. lia. }
  rewrite Hlen.
  rewrite (app_assoc m FENCE rest).
  rewrite (app_assoc [BACKTICK; BACKTICK] (m ++ FENCE) rest).
  apply findall_skip.
Qed.

(** Without a fenced block there is nothing to find. *)
Lemma findall_no_block (s : str) :
  has_fenced_block s = false -> findall fence_re s = [].
Proof.
  intros Hs. unfold findall.
  assert (Hnone : forall a t, s = a ++ t -> match_here fence_re t = None).
  { intros a t ->. destruct (match_here fence_re t) as [[g rest]|] eqn:E;
      [|reflexivity].
    apply fence_match_shape in E as (m & ->).
    now rewrite has_fenced_block_intro in Hs. }
  clear Hs. induction s as [|c s IH].
  - cbn [findall_from]. now rewrite (Hnone [] []).
  - rewrite findall_miss by now apply (Hnone []).
    apply IH. intros a t ->. now apply (Hnone (c :: a)).
Qed.

(** ** Transcript extractor *)

(** The loop of [extract_code_from_chat] keeps the messages of the agent
    that carry text, trimmed, in the order of the conversation. *)
Lemma code_parts_filter (chat_history : list message) (agent_name : str) :
  code_parts chat_history agent_name
  = map trimmed_content (filter (authored_by agent_name) chat_history).
Proof.
  induction chat_history as [|m h IH]; [reflexivity|].
  cbn [code_parts filter]. unfold authored_by at 1.
  destruct (str_eqb _ _ && truthy _); cbn [map]; now rewrite IH.
Qed.

Lemma text_parts_filter (chat_history : list message) (agent_name : str) :
  text_parts chat_history agent_name
  = map trimmed_content (filter (authored_by agent_name) chat_history).
Proof.
  induction chat_history as [|m h IH]; [reflexivity|].
  cbn [text_parts filter]. unfold authored_by at 1.
  destruct (str_eqb _ _); cbn [andb]; [|exact IH].
  destruct (truthy _); cbn [map]; now rewrite IH.
Qed.

(** No message of the agent: the empty text. *)
Lemma extract_code_no_message (chat_history : list message) (agent_name : str) :
  filter (authored_by agent_name) chat_history = [] ->
  extract_code_from_chat chat_history agent_name = [].
Proof.
  intros H. unfold extract_code_from_chat.
  now rewrite code_parts_filter, H.
Qed.


Lemma render_split (b : block) (rest : str) :
  render b ++ rest
  = prose b ++ FENCE ++ (tag b ++ gap b ++ body b) ++ FENCE ++ rest.
Proof. unfold render. now rewrite <- !app_assoc. Qed.

Lemma findall_blocks (bs : list block) (trailing : str) :
  Forall well_formed bs ->
  findall_from fence_re 0 (List.concat (map render bs) ++ trailing)
  = map (fun b => lstrip (body b)) bs ++ findall_from fence_re 0 trailing.
Proof.
  induction 1 as [|b bs (Htag & Hprose & Hgap & Hne & Hbody) _ IH];
    [reflexivity|].
  cbn [map List.concat]. rewrite <- app_assoc, render_split.
  rewrite (findall_block _ _ _ (lstrip (body b))); try assumption.
  - now rewrite IH.
  - rewrite <- !app_assoc. now apply match_fence_recognised.
Qed.




(** The claim C7 as the specification words it, with a blank line between
    the messages, fails: the separator is one newline. *)
Lemma extract_code_separator_counterexample :
  let history := [says "Data_Architect" (lit "alpha");
                  says "Data_Architect" (lit "beta")] in
  let agent_name := lit "Data_Architect" in
  List.length (filter (authored_by agent_name) history) = 2%nat
  /\ has_fenced_block (join [NL] (code_parts history agent_name)) = false
  /\ extract_code_from_chat history agent_name
     = lit "alpha" ++ [NL] ++ lit "beta"
  /\ extract_code_from_chat history agent_name
     <> join [NL; NL]
          (map trimmed_content (filter (authored_by agent_name) history)).
Proof. vm_compute. repeat split; discriminate. Qed.

(** C7 (amended). When the stitched text holds no fenced code block,
    [extract_code_from_chat] returns the trimmed contents of the messages of
    the agent that have non-empty trimmed content, in conversation order,
    with a single newline between consecutive messages. *)
Theorem extract_code_unfenced (chat_history : list message) (agent_name : str) :
  has_fenced_block
    (join [NL]
       (map trimmed_content (filter (authored_by agent_name) chat_history)))
  = false ->
  extract_code_from_chat chat_history agent_name
  = join [NL]
      (map trimmed_content (filter (authored_by agent_name) chat_history)).
Proof.
  rewrite <- code_parts_filter. intros H.
  unfold extract_code_from_chat.
  destruct (code_parts chat_history agent_name) as [|p ps] eqn:E;
    [reflexivity|].
  cbv zeta. now rewrite (findall_no_block _ H).
Qed.

Lemma extract_code_unfenced_witness :
  extract_code_from_chat
    [says "Data_Architect" (lit "alpha");
     says "Admin" (lit "go on");
     says "Data_Architect" (lit "  beta ")]
    (lit "Data_Architect")
  = lit "alpha" ++ [NL] ++ lit "beta".
Proof.
  apply (extract_code_unfenced
           [says "Data_Architect" (lit "alpha");
            says "Admin" (lit "go on");
            says "Data_Architect" (lit "  beta ")]
           (lit "Data_Architect")).
  vm_compute; reflexivity.
Defined.

(** *** Trimming a text that starts with a dark word *)

Lemma lstrip_blank (a : str) : blank a = true -> lstrip a = [].
Proof.
  intros H. rewrite <- (app_nil_r a). now rewrite lstrip_blank_app.
Qed.

Lemma lstrip_app_dark (a b : str) :
  blank a = false -> lstrip (a ++ b) = lstrip a ++ b.
Proof.
  induction a as [|c a IH]; [discriminate|].
  cbn [blank forallb app lstrip].
  destruct (is_space c); cbn [andb]; [exact IH|reflexivity].
Qed.

Lemma blank_rev (a : str) : blank (rev a) = blank a.
Proof.
  unfold blank. induction a as [|c a IH]; [reflexivity|].
  cbn [rev forallb]. rewrite forallb_app, IH. cbn [forallb].
  now rewrite andb_true_r, andb_comm.
Qed.









(** ** Traces of the review loop *)

Lemma count_chats_app (a : agent) (tr1 tr2 : list event) :
  count_chats a (tr1 ++ tr2) = (count_chats a tr1 + count_chats a tr2)%nat.
Proof. unfold count_chats. now rewrite filter_app, length_app. Qed.

Lemma count_checks_app (tr1 tr2 : list event) :
  count_checks (tr1 ++ tr2) = (count_checks tr1 + count_checks tr2)%nat.
Proof. unfold count_checks. now rewrite filter_app, length_app. Qed.

Lemma budget_range_from (max_review_cycles : Z) (n : nat) :
  forall lo,
    (budget max_review_cycles (range_from lo n)
     <= Z.to_nat (max_review_cycles - lo))%nat.
Proof.
  unfold budget.
  induction n as [|n IH]; intros lo; cbn [range_from filter List.length];
    [lia|].
  specialize (IH (lo + 1)%Z).
  destruct (lo <? max_review_cycles)%Z eqn:E; cbn [List.length].
  - apply Z.ltb_lt in E. lia.
  - lia.
Qed.

Lemma last_draft_app (tr1 tr2 : list event) :
  last_draft (tr1 ++ tr2)
  = match last_draft tr2 with
    | Some h => Some h
    | None => last_draft tr1
    end.
Proof.
  induction tr1 as [|e tr1 IH]; cbn [app last_draft].
  - now destruct (last_draft tr2).
  - rewrite IH. now destruct (last_draft tr2).
Qed.

Lemma length_range_from (n : nat) (lo : Z) :
  List.length (range_from lo n) = n.
Proof.
  revert lo; induction n as [|n IH]; intros lo; cbn; [reflexivity|].
  now rewrite IH.
Qed.

(** A tail in which the drafting agent is not addressed and nothing is
    checked. *)
Lemma quiet_tail_chats (tail : list event) :
  forallb (fun e => negb (is_chat_with Data_Architect e)
                    && negb (is_check e)) tail = true ->
  count_chats Data_Architect tail = 0%nat.
Proof.
  unfold count_chats. induction tail as [|e tail IH]; [reflexivity|].
  cbn [forallb filter]. intros H; apply andb_true_iff in H as [He Ht].
  apply andb_true_iff in He as [He _]. apply negb_true_iff in He.
  rewrite He. now apply IH.
Qed.

Lemma quiet_tail_checks (tail : list event) :
  forallb (fun e => negb (is_chat_with Data_Architect e)
                    && negb (is_check e)) tail = true ->
  count_checks tail = 0%nat.
Proof.
  unfold count_checks. induction tail as [|e tail IH]; [reflexivity|].
  cbn [forallb filter]. intros H; apply andb_true_iff in H as [He Ht].
  apply andb_true_iff in He as [_ He]. apply negb_true_iff in He.
  rewrite He. now apply IH.
Qed.

Lemma quiet_tail_draft (tail : list event) :
  forallb (fun e => negb (is_chat_with Data_Architect e)
                    && negb (is_check e)) tail = true ->
  last_draft tail = None.
Proof.
  induction tail as [|e tail IH]; [reflexivity|].
  cbn [forallb last_draft]. intros H; apply andb_true_iff in H as [He Ht].
  rewrite (IH Ht). apply andb_true_iff in He as [He _].
  destruct e as [[|] p t [h|x]| | |]; try reflexivity; discriminate.
Qed.

(** An element that is not in [b] and that splits [a ++ b] lies in [a]. *)
Lemma split_in_front {A : Type} (x : A) (a b : list A) :
  ~ In x b ->
  forall pre post,
    a ++ b = pre ++ x :: post ->
    exists post', a = pre ++ x :: post' /\ post = post' ++ b.
Proof.
  intros Hb. induction a as [|y a IH]; intros pre post E.
  - cbn in E. exfalso. apply Hb. rewrite E. apply in_elt.
  - destruct pre as [|z pre]; cbn in E; injection E as -> E.
    + now exists a.
    + destruct (IH _ _ E) as (post' & -> & ->). now exists post'.
Qed.

Lemma quiet_tail_no_check (tail : list event) (c : Z) (code : str) :
  forallb (fun e => negb (is_chat_with Data_Architect e)
                    && negb (is_check e)) tail = true ->
  ~ In (ECheck c code) tail.
Proof.
  intros H Hin. rewrite forallb_forall in H. specialize (H _ Hin).
  discriminate.
Qed.

Lemma no_file_written_to (path : str) (tr : list event) :
  forallb (fun ev => negb (is_file_effect ev)) tr = true ->
  written_to path tr = [].
Proof.
  induction tr as [|e tr IH]; [reflexivity|].
  cbn [forallb]. intros H; apply andb_true_iff in H as [He Htr].
  destruct e; cbn [written_to]; try (now apply IH); discriminate.
Qed.

Section LoopShape.

Variable max_review_cycles : Z.

(** At most one revision request for each cycle below the maximum. *)
Lemma loop_shape_chats (cycles : list Z) (evs : list event) :
  loop_shape max_review_cycles cycles evs ->
  (count_chats Data_Architect evs <= budget max_review_cycles cycles)%nat.
Proof.
  unfold budget.
  induction 1 as [|c rest code Hp|c rest code e Hlt Hp
                  |c rest code h evs Hlt Hp _ IH|c rest code evs Hge Hp _ IH];
    cbn [filter]; unfold count_chats in *; cbn [filter is_chat_with agent_eqb];
    try (apply Z.ltb_lt in Hlt; rewrite Hlt);
    cbn [List.length]; try lia.
  destruct (c <? max_review_cycles)%Z; cbn [List.length]; lia.
Qed.

(** At most one check for each cycle. *)
Lemma loop_shape_checks (cycles : list Z) (evs : list event) :
  loop_shape max_review_cycles cycles evs ->
  (count_checks evs <= List.length cycles)%nat.
Proof.
  induction 1; unfold count_checks in *;
    cbn [filter is_check List.length] in *; lia.
Qed.

(** The loop creates no directory and writes no file. *)
Lemma loop_shape_no_file (cycles : list Z) (evs : list event) :
  loop_shape max_review_cycles cycles evs ->
  forallb (fun e => negb (is_file_effect e)) evs = true.
Proof. induction 1; cbn [forallb is_file_effect negb andb]; auto. Qed.

(** A chat of the loop directly follows a failed check in a cycle strictly
    below the maximum, and asks to repair the failures of that check. *)
Lemma loop_shape_revision (cycles : list Z) (evs : list event) :
  loop_shape max_review_cycles cycles evs ->
  forall pre c code a p t r post,
    evs = pre ++ ECheck c code :: EChat a p t r :: post ->
    (c < max_review_cycles)%Z
    /\ fst (local_quality_check code) = false
    /\ a = Data_Architect
    /\ p = revision_message (snd (local_quality_check code)).
Proof.
  induction 1 as [|c0 rest code0 Hp|c0 rest code0 e Hlt Hp
                  |c0 rest code0 h evs Hlt Hp _ IH|c0 rest code0 evs Hge Hp Hs IH];
    intros pre c code a p t r post E.
  - destruct pre; discriminate.
  - destruct pre as [|x [|y pre]]; discriminate.
  - destruct pre as [|x [|y [|z pre]]]; try discriminate.
    injection E as <- <- <- <- _ _. auto.
  - destruct pre as [|x [|y pre]]; try discriminate.
    + injection E as <- <- <- <- _ _ _. auto.
    + injection E as _ _ E. eauto.
  - destruct pre as [|x pre].
    + injection E as <- <- E. inversion Hs; subst; discriminate.
    + injection E as _ E. eauto.
Qed.

(** In the cycles [lo, lo+1, ...]: after the check of cycle [c], at most
    one revision request for each of the cycles from [c] to below the
    maximum. *)
Lemma loop_shape_after_check (n : nat) :
  forall lo evs,
    loop_shape max_review_cycles (range_from lo n) evs ->
    forall pre c code post,
      evs = pre ++ ECheck c code :: post ->
      (lo <= c)%Z
      /\ (count_chats Data_Architect post
          <= Z.to_nat (max_review_cycles - c))%nat.
Proof.
  induction n as [|n IH]; intros lo evs Hs pre c code post E;
    cbn [range_from] in Hs; revert E;
    inversion Hs as [|c0 rest code0 Hp|c0 rest code0 e Hlt Hp
                     |c0 rest code0 h evs' Hlt Hp Hs'
                     |c0 rest code0 evs' Hge Hp Hs']; subst; intros E.
  - destruct pre; discriminate.
  - destruct pre as [|x [|y pre]]; try discriminate.
    injection E as <- <- <-. cbn. lia.
  - destruct pre as [|x [|y [|z pre]]]; try discriminate.
    injection E as <- <- <-. cbn. lia.
  - destruct pre as [|x [|y pre]]; try discriminate.
    + injection E as <- <- <-. split; [lia|].
      pose proof (loop_shape_chats _ _ Hs') as Hc.
      pose proof (budget_range_from max_review_cycles n (lo + 1)) as Hb.
      unfold count_chats in *. cbn [filter is_chat_with agent_eqb List.length].
      lia.
    + injection E as _ _ E.
      destruct (IH _ _ Hs' _ _ _ _ E). split; [lia|assumption].
  - destruct pre as [|x pre].
    + injection E as <- <- <-. split; [lia|].
      pose proof (loop_shape_chats _ _ Hs') as Hc.
      pose proof (budget_range_from max_review_cycles n (lo + 1)) as Hb.
      lia.
    + injection E as _ E.
      destruct (IH _ _ Hs' _ _ _ _ E). split; [lia|assumption].
Qed.

End LoopShape.

(** ** Pipeline orchestrator *)

Section PipelineFacts.

Variable nonascii_lower nonascii_upper : char -> str.
Variable script_dir : str.
Variable World : Type.
Variable initiate_chat :
  World -> agent -> str -> nat -> outcome (list message) * World.

Abbreviation loop := (review_loop World initiate_chat).
Abbreviation run :=
  (run_engineering_squad nonascii_lower nonascii_upper script_dir
     World initiate_chat).
Abbreviation DRAFTER := (lit "Data_Architect").

(** One cycle of the review loop. *)
Lemma review_loop_cons (cycle : Z) (rest : list Z) (max_review_cycles : Z)
    (current_script : str) (all_history : list message) (st : state World) :
  loop (cycle :: rest) max_review_cycles current_script all_history st
  = let st1 := State (world st) (trace st ++ [ECheck cycle current_script]) in
    let failures := snd (local_quality_check current_script) in
    if fst (local_quality_check current_script)
    then (Return (true, current_script, all_history), st1)
    else if (cycle <? max_review_cycles)%Z then
      match initiate_chat (world st) Data_Architect
              (revision_message failures) 3 with
      | (Return rewrite_chat, w') =>
          loop rest max_review_cycles
            (extract_code_from_chat rewrite_chat DRAFTER)
            (all_history ++ rewrite_chat)
            (State w'
               (trace st1
                ++ [EChat Data_Architect (revision_message failures) 3
                      (Return rewrite_chat)]))
      | (Raise e, w') =>
          (Raise e,
           State w'
             (trace st1
              ++ [EChat Data_Architect (revision_message failures) 3
                    (Raise e)]))
      end
    else loop rest max_review_cycles current_script all_history st1.
Proof.
  cbn [review_loop]. unfold bind, emit, chat, ret. cbn [world trace].
  destruct (local_quality_check current_script) as [passed failures].
  cbn [fst snd]. destruct passed; [reflexivity|].
  destruct (cycle <? max_review_cycles)%Z; [|reflexivity].
  destruct (initiate_chat _ _ _ _) as [[rc|e] w']; reflexivity.
Qed.

(** The loop only adds to the trace, and what it adds has the shape of a
    review. *)
Lemma review_loop_shape (max_review_cycles : Z) (cycles : list Z) :
  forall current_script all_history st,
  exists evs,
    trace (snd (loop cycles max_review_cycles current_script all_history st))
    = trace st ++ evs
    /\ loop_shape max_review_cycles cycles evs.
Proof.
  induction cycles as [|cycle rest IH]; intros s h st.
  - exists []. cbn. rewrite app_nil_r. split; [reflexivity|constructor].
  - rewrite review_loop_cons. cbv zeta.
    destruct (fst (local_quality_check s)) eqn:Epass.
    + exists [ECheck cycle s]. split; [reflexivity|now constructor].
    + destruct (cycle <? max_review_cycles)%Z eqn:Elt.
      * apply Z.ltb_lt in Elt.
        destruct (initiate_chat _ _ _ _) as [[rc|e] w'].
        -- match goal with |- context [loop rest _ ?s' ?h' ?st'] =>
             destruct (IH s' h' st') as (evs & Htr & Hshape) end.
           eexists. rewrite Htr. cbn [trace].
           rewrite <- !app_assoc. split; [reflexivity|].
           now apply shape_revised.
        -- eexists. cbn [snd trace]. rewrite <- !app_assoc.
           split; [reflexivity|]. now apply shape_raised.
      * apply Z.ltb_ge in Elt.
        match goal with |- context [loop rest _ ?s' ?h' ?st'] =>
          destruct (IH s' h' st') as (evs & Htr & Hshape) end.
        eexists. rewrite Htr. cbn [trace].
        rewrite <- !app_assoc. split; [reflexivity|].
        now apply shape_unreported.
Qed.

(** The whole run, stage by stage. *)
Lemma run_unfold (task : str) (max_review_cycles : Z) (w : World) :
  run task max_review_cycles (start w)
  = match initiate_chat w Data_Architect task 3 with
    | (Raise e, w1) =>
        (Raise e, State w1 [EChat Data_Architect task 3 (Raise e)])
    | (Return arch_chat, w1) =>
        match loop (range 1 (max_review_cycles + 1)) max_review_cycles
                (extract_code_from_chat arch_chat DRAFTER) arch_chat
                (State w1 [EChat Data_Architect task 3 (Return arch_chat)])
        with
        | (Raise e, st2) => (Raise e, st2)
        | (Return (approved, current_script, all_history), st2) =>
            match initiate_chat (world st2) Cloud_Architect
                    (deploy_message current_script) 2 with
            | (Raise e, w3) =>
                (Raise e,
                 State w3
                   (trace st2
                    ++ [EChat Cloud_Architect
                          (deploy_message current_script) 2 (Raise e)]))
            | (Return cloud_chat, w3) =>
                (Return tt,
                 State w3
                   (trace st2
                    ++ EChat Cloud_Architect
                         (deploy_message current_script) 2
                         (Return cloud_chat)
                    :: artifacts nonascii_lower nonascii_upper script_dir
                         task approved current_script
                         (all_history ++ cloud_chat)
                         (extract_text_from_chat cloud_chat
                            (lit "Cloud_Architect"))))
            end
        end
    end.
Proof.
  unfold run_engineering_squad, start, bind at 1, chat at 1.
  cbn [world trace app].
  destruct (initiate_chat w Data_Architect task 3) as [[arch_chat|e] w1];
    [|reflexivity].
  unfold bind at 1.
  destruct (loop _ _ _ _ _) as [[[[approved s] h]|e] st2]; [|reflexivity].
  unfold bind at 1, chat at 1.
  destruct (initiate_chat (world st2) _ _ _) as [[cloud_chat|e] w3];
    [|reflexivity].
  unfold save_conversation, get_output_dir, bind, emit, ret, artifacts,
    output_path.
  cbn [world trace]. rewrite <- !app_assoc. reflexivity.
Qed.

(** The loop starts with the check of the script it is given. *)
Lemma review_loop_first (max_review_cycles cycle : Z) (rest : list Z)
    (current_script : str) (all_history : list message) (st : state World) :
  exists evs,
    trace (snd (loop (cycle :: rest) max_review_cycles current_script
                  all_history st))
    = trace st ++ ECheck cycle current_script :: evs.
Proof.
  rewrite review_loop_cons. cbv zeta.
  destruct (fst (local_quality_check current_script)); [now exists []|].
  destruct (cycle <? max_review_cycles)%Z.
  - destruct (initiate_chat _ _ _ _) as [[rc|e] w'].
    + match goal with |- context [loop rest ?m ?s ?h ?st'] =>
        destruct (review_loop_shape m rest s h st') as (evs & -> & _) end.
      cbn [trace]. rewrite <- !app_assoc. cbn [app]. eauto.
    + cbn [snd trace]. rewrite <- app_assoc. cbn [app]. eauto.
  - match goal with |- context [loop rest ?m ?s ?h ?st'] =>
      destruct (review_loop_shape m rest s h st') as (evs & -> & _) end.
    cbn [trace]. rewrite <- app_assoc. cbn [app]. eauto.
Qed.

(** When the loop is left in the ordinary way, the script it hands on is
    the one of the drafting agent's latest chat; and the loop says
    [approved] only for a script that passes the check. *)
Lemma review_loop_result (max_review_cycles : Z) (cycles : list Z) :
  forall current_script all_history st approved script history st',
    loop cycles max_review_cycles current_script all_history st
    = (Return (approved, script, history), st') ->
    latest_script (trace st) = current_script ->
    latest_script (trace st') = script
    /\ (approved = true -> fst (local_quality_check script) = true).
Proof.
  induction cycles as [|cycle rest IH];
    intros s h st approved s' h' st' Hrun Hlatest.
  - cbn in Hrun. injection Hrun as <- <- <- <-.
    split; [assumption|discriminate].
  - rewrite review_loop_cons in Hrun. cbv zeta in Hrun.
    assert (Hcheck : latest_script (trace st ++ [ECheck cycle s]) = s).
    { unfold latest_script in *. now rewrite last_draft_app. }
    destruct (fst (local_quality_check s)) eqn:Epass.
    + injection Hrun as <- <- <- <-. cbn [trace]. now split.
    + destruct (cycle <? max_review_cycles)%Z.
      * destruct (initiate_chat _ _ _ _) as [[rc|e] w']; [|discriminate].
        apply IH in Hrun; [assumption|].
        cbn [trace]. unfold latest_script. now rewrite last_draft_app.
      * apply IH in Hrun; assumption.
Qed.

(** When the loop is left by an exception, a revision request raised it. *)
Lemma review_loop_raise (max_review_cycles : Z) (cycles : list Z) :
  forall current_script all_history st e st',
    loop cycles max_review_cycles current_script all_history st
    = (Raise e, st') ->
    exists pre p, trace st' = pre ++ [EChat Data_Architect p 3 (Raise e)].
Proof.
  induction cycles as [|cycle rest IH]; intros s h st e st' Hrun.
  - discriminate.
  - rewrite review_loop_cons in Hrun. cbv zeta in Hrun.
    destruct (fst (local_quality_check s)); [discriminate|].
    destruct (cycle <? max_review_cycles)%Z.
    + destruct (initiate_chat _ _ _ _) as [[rc|e'] w'].
      * now apply IH in Hrun.
      * injection Hrun as <- <-. cbn [trace]. eauto.
    + now apply IH in Hrun.
Qed.

(** When the loop is left in the ordinary way, none of its chats raised. *)
Lemma review_loop_return_quiet (max_review_cycles : Z) (cycles : list Z) :
  forall current_script all_history st r st',
    loop cycles max_review_cycles current_script all_history st
    = (Return r, st') ->
    existsb is_raised (trace st') = existsb is_raised (trace st).
Proof.
  induction cycles as [|cycle rest IH]; intros s h st r st' Hrun.
  - cbn in Hrun. now injection Hrun as _ <-.
  - rewrite review_loop_cons in Hrun. cbv zeta in Hrun.
    destruct (fst (local_quality_check s)).
    + injection Hrun as _ <-. cbn [trace].
      rewrite existsb_app. cbn. now rewrite orb_false_r.
    + destruct (cycle <? max_review_cycles)%Z.
      * destruct (initiate_chat _ _ _ _) as [[rc|e] w']; [|discriminate].
        apply IH in Hrun. rewrite Hrun. cbn [trace].
        rewrite !existsb_app. cbn. now rewrite !orb_false_r.
      * apply IH in Hrun. rewrite Hrun. cbn [trace].
        rewrite existsb_app. cbn. now rewrite orb_false_r.
Qed.

(** The trace of a run: the request to the drafting agent, the review
    loop, and a tail in which the drafting agent is not addressed and
    nothing is checked. *)
Lemma run_trace_structure (task : str) (max_review_cycles : Z) (w : World) :
  exists r1 n evs tail,
    trace (snd (run task max_review_cycles (start w)))
    = EChat Data_Architect task 3 r1 :: evs ++ tail
    /\ (n <= Z.to_nat max_review_cycles)%nat
    /\ loop_shape max_review_cycles (range_from 1 n) evs
    /\ forallb (fun e => negb (is_chat_with Data_Architect e)
                         && negb (is_check e)) tail = true.
Proof.
  rewrite run_unfold.
  destruct (initiate_chat w Data_Architect task 3) as [[arch_chat|e] w1].
  - match goal with |- context [loop ?c ?m ?s ?h ?st] =>
      destruct (review_loop_shape m c s h st) as (evs & Htr & Hshape);
      destruct (loop c m s h st) as [[[[approved s'] h']|e] st2]
    end; cbn [snd trace] in Htr.
    + destruct (initiate_chat (world st2) _ _ _) as [[cloud_chat|e] w3];
        cbn [snd trace]; rewrite Htr; cbn [app];
        eexists _, _, evs, _; (split; [reflexivity|]);
        (split; [|split; [exact Hshape|reflexivity]]);
        replace (max_review_cycles + 1 - 1)%Z with max_review_cycles by lia;
        lia.
    + cbn [snd]. rewrite Htr. cbn [app].
      exists (Return arch_chat), (Z.to_nat (max_review_cycles + 1 - 1)),
        evs, [].
      rewrite app_nil_r. split; [reflexivity|].
      split; [|split; [exact Hshape|reflexivity]].
      replace (max_review_cycles + 1 - 1)%Z with max_review_cycles by lia.
      lia.
  - exists (Raise e), 0%nat, [], []. cbn.
    repeat split; try lia. constructor.
Qed.

(** Counting the revision requests and the checks of a run. *)
Lemma run_counts (task : str) (max_review_cycles : Z) (w : World) :
  (revision_requests (trace (snd (run task max_review_cycles (start w))))
   <= Z.to_nat (max_review_cycles - 1))%nat
  /\ (count_checks (trace (snd (run task max_review_cycles (start w))))
      <= Z.to_nat max_review_cycles)%nat.
Proof.
  destruct (run_trace_structure task max_review_cycles w)
    as (r1 & n & evs & tail & -> & Hn & Hshape & Htail).
  pose proof (loop_shape_chats _ _ _ Hshape) as Hchats.
  pose proof (loop_shape_checks _ _ _ Hshape) as Hchecks.
  pose proof (budget_range_from max_review_cycles n 1) as Hbudget.
  rewrite length_range_from in Hchecks.
  unfold revision_requests.
  change (EChat Data_Architect task 3 r1 :: evs ++ tail)
    with ([EChat Data_Architect task 3 r1] ++ evs ++ tail).
  rewrite !count_chats_app, !count_checks_app.
  rewrite (quiet_tail_chats _ Htail), (quiet_tail_checks _ Htail).
  cbn. lia.
Qed.

(** C1. For every [max_review_cycles >= 0] a run sends at most
    [max_review_cycles] revision requests to the drafting agent and goes
    at most [max_review_cycles] times through the check, so the review
    loop halts ([run_engineering_squad] is a total function of the world
    it is given); and a run that no exception ends settles on a script
    artifact marked APPROVED or BEST EFFORT. *)
Theorem review_loop_bounded (task : str) (max_review_cycles : Z) (w : World) :
  (0 <= max_review_cycles)%Z ->
  let result := run task max_review_cycles (start w) in
  (Z.of_nat (revision_requests (trace (snd result))) <= max_review_cycles)%Z
  /\ (Z.of_nat (count_checks (trace (snd result))) <= max_review_cycles)%Z
  /\ (fst result = Return tt ->
      exists pre approved script,
        trace (snd result)
        = pre ++ [EWrite (output_path script_dir (lit "approved_script.py"))
                    (script_file approved script)]).
Proof.
  intros Hmax result.
  destruct (run_counts task max_review_cycles w) as [Hrev Hchk].
  fold result in Hrev, Hchk.
  split; [lia|]. split; [lia|].
  subst result. rewrite run_unfold.
  destruct (initiate_chat w Data_Architect task 3) as [[arch_chat|e] w1];
    [|discriminate].
  destruct (loop _ _ _ _ _) as [[[[approved s] h]|e] st2]; [|discriminate].
  destruct (initiate_chat (world st2) _ _ _) as [[cloud_chat|e] w3];
    [|discriminate].
  intros _. cbn [snd trace]. unfold artifacts.
  eexists (trace st2 ++ [_; _; _; _; _; _]), approved, s.
  rewrite <- app_assoc. reflexivity.
Qed.

(** C9. For every [max_review_cycles >= 1] a run sends at most
    [max_review_cycles - 1] revision requests: a request to the drafting
    agent that follows a check is a revision request for the failures of
    that check, made in a cycle strictly below [max_review_cycles]; and
    after the check of the last cycle the drafting agent is never
    addressed again, so a failure found there is not reported to it. *)
Theorem revision_requests_bounded (task : str) (max_review_cycles : Z)
    (w : World) :
  (1 <= max_review_cycles)%Z ->
  let tr := trace (snd (run task max_review_cycles (start w))) in
  (Z.of_nat (revision_requests tr) <= max_review_cycles - 1)%Z
  /\ (forall pre c code p t r post,
        tr = pre ++ ECheck c code :: EChat Data_Architect p t r :: post ->
        (c < max_review_cycles)%Z
        /\ fst (local_quality_check code) = false
        /\ p = revision_message (snd (local_quality_check code)))
  /\ (forall pre code post,
        tr = pre ++ ECheck max_review_cycles code :: post ->
        count_chats Data_Architect post = 0%nat).
Proof.
  intros Hmax tr.
  destruct (run_counts task max_review_cycles w) as [Hrev _].
  fold tr in Hrev. split; [lia|].
  subst tr.
  destruct (run_trace_structure task max_review_cycles w)
    as (r1 & n & evs & tail & -> & Hn & Hshape & Htail).
  split.
  - intros pre c code p t r post E.
    destruct pre as [|x pre]; [discriminate|]. injection E as _ E.
    apply split_in_front in E as (post' & E & Epost);
      [|now apply quiet_tail_no_check].
    destruct post' as [|y post'].
    + cbn [app] in Epost. subst tail. discriminate.
    + injection Epost as <- _.
      destruct (loop_shape_revision _ _ _ Hshape _ _ _ _ _ _ _ _ E)
        as (? & ? & _ & ?).
      auto.
  - intros pre code post E.
    destruct pre as [|x pre]; [discriminate|]. injection E as _ E.
    apply split_in_front in E as (post' & E & ->);
      [|now apply quiet_tail_no_check].
    destruct (loop_shape_after_check _ _ _ _ Hshape _ _ _ _ E) as [_ Hc].
    rewrite count_chats_app, (quiet_tail_chats _ Htail). lia.
Qed.

(** A run that ends with an exception has written nothing, and its last
    step is the chat that raised. *)
Lemma run_raise_no_file (task : str) (max_review_cycles : Z)
    (w : World) (e : py_exception) :
  fst (run task max_review_cycles (start w)) = Raise e ->
  let tr := trace (snd (run task max_review_cycles (start w))) in
  forallb (fun ev => negb (is_file_effect ev)) tr = true
  /\ exists pre a p t, tr = pre ++ [EChat a p t (Raise e)].
Proof.
  rewrite run_unfold.
  destruct (initiate_chat w Data_Architect task 3) as [[arch_chat|e1] w1].
  - match goal with |- context [loop ?c ?m ?s ?h ?st] =>
      destruct (review_loop_shape m c s h st) as (evs & Htr & Hshape);
      pose proof (review_loop_raise m c s h st) as Hraise;
      destruct (loop c m s h st) as [[[[approved s'] h']|e2] st2]
    end; cbn [snd trace] in Htr.
    + destruct (initiate_chat (world st2) _ _ _) as [[cloud_chat|e3] w3];
        [discriminate|].
      cbn [fst snd trace]. intros [= ->]. split.
      * rewrite Htr, !forallb_app, (loop_shape_no_file _ _ _ Hshape).
        reflexivity.
      * eauto.
    + cbn [fst snd]. intros [= ->]. split.
      * rewrite Htr, forallb_app, (loop_shape_no_file _ _ _ Hshape).
        reflexivity.
      * destruct (Hraise e st2 eq_refl) as (pre & p & ->). eauto.
  - cbn. intros [= ->]. split; [reflexivity|].
    now exists [], Data_Architect, task, 3%nat.
Qed.

(** In a run that ends in the ordinary way no completion call raised:
    nothing in the run catches an exception. *)
Lemma run_return_no_raise (task : str) (max_review_cycles : Z) (w : World) :
  fst (run task max_review_cycles (start w)) = Return tt ->
  existsb is_raised (trace (snd (run task max_review_cycles (start w))))
  = false.
Proof.
  rewrite run_unfold.
  destruct (initiate_chat w Data_Architect task 3) as [[arch_chat|e1] w1];
    [|discriminate].
  match goal with |- context [loop ?c ?m ?s ?h ?st] =>
    pose proof (review_loop_return_quiet m c s h st) as Hquiet;
    destruct (loop c m s h st) as [[r|e2] st2]
  end; [|discriminate].
  specialize (Hquiet r st2 eq_refl). cbn in Hquiet.
  destruct r as [[approved s'] h'].
  destruct (initiate_chat (world st2) _ _ _) as [[cloud_chat|e3] w3];
    [|discriminate].
  intros _. cbn [snd trace]. rewrite existsb_app, Hquiet. reflexivity.
Qed.

(** C8. If a completion call raises, at whatever stage of a run, the run
    ends with an exception, and it has written nothing: no directory was
    made, and neither the transcript nor infra_config.txt nor
    approved_script.py was written. *)
Theorem no_artifact_on_error (task : str) (max_review_cycles : Z) (w : World) :
  let result := run task max_review_cycles (start w) in
  existsb is_raised (trace (snd result)) = true ->
  (exists e, fst result = Raise e)
  /\ forallb (fun ev => negb (is_file_effect ev)) (trace (snd result)) = true
  /\ written_to (output_path script_dir (lit "infra_config.txt"))
       (trace (snd result)) = []
  /\ written_to (output_path script_dir (lit "approved_script.py"))
       (trace (snd result)) = [].
Proof.
  intros result Hraised.
  destruct (fst result) as [[]|e] eqn:Eres.
  - apply run_return_no_raise in Eres. fold result in Eres. congruence.
  - destruct (run_raise_no_file _ _ _ _ Eres) as [Hfiles _].
    fold result in Hfiles.
    repeat split; eauto; now apply no_file_written_to.
Qed.

(** C3 (amended). A run that no exception ends writes the script artifact
    last, marked APPROVED or BEST EFFORT; its body is, verbatim, the script
    extracted from the latest chat of the drafting agent, whether the
    review approved it or not.  That body is the empty text when this chat
    holds no message of the agent with content; and the run is marked
    APPROVED only for a script that passes the check. *)
Theorem script_artifact_body (task : str) (max_review_cycles : Z) (w : World) :
  fst (run task max_review_cycles (start w)) = Return tt ->
  let tr := trace (snd (run task max_review_cycles (start w))) in
  exists pre approved history,
    last_draft tr = Some history
    /\ tr = pre ++ [EWrite (output_path script_dir (lit "approved_script.py"))
                      (script_file approved
                         (extract_code_from_chat history DRAFTER))]
    /\ (filter (authored_by DRAFTER) history = [] ->
        extract_code_from_chat history DRAFTER = [])
    /\ (approved = true ->
        fst (local_quality_check (extract_code_from_chat history DRAFTER))
        = true).
Proof.
  rewrite run_unfold.
  destruct (initiate_chat w Data_Architect task 3) as [[arch_chat|e1] w1];
    [|discriminate].
  match goal with |- context [loop ?c ?m ?s ?h ?st] =>
    pose proof (review_loop_result m c s h st) as Hres;
    destruct (review_loop_shape m c s h st) as (evs & Htr & _);
    destruct (loop c m s h st) as [[[[approved s'] h']|e2] st2]
  end; [|discriminate].
  destruct (Hres _ _ _ _ eq_refl eq_refl) as [Hlatest Happ].
  cbn [snd trace] in Htr.
  destruct (initiate_chat (world st2) _ _ _) as [[cloud_chat|e3] w3];
    [|discriminate].
  intros _. cbn [snd trace]. unfold artifacts.
  unfold latest_script in Hlatest.
  assert (Hd : exists history, last_draft (trace st2) = Some history).
  { rewrite Htr, last_draft_app.
    destruct (last_draft evs); cbn; eauto. }
  destruct Hd as (history & Hd). rewrite Hd in Hlatest. subst s'.
  eexists (trace st2 ++ [_; _; _; _; _; _]), approved, history.
  split; [|split; [|split]].
  - now rewrite last_draft_app.
  - rewrite <- app_assoc. reflexivity.
  - apply extract_code_no_message.
  - exact Happ.
Qed.

(** C5 (amended). Once the drafting agent has answered the task: for
    [max_review_cycles >= 1] the check of cycle 1 runs on the initial
    draft, before anything else; for [max_review_cycles = 0] the review
    loop has no cycle, so no check runs at all and no revision is asked
    for, and the run (if the deployment agent answers) ends marked
    BEST EFFORT with the initial draft as the final script, whether or
    not the draft would have passed. *)
Theorem initial_draft_validation (task : str) (max_review_cycles : Z)
    (w w1 : World) (arch_chat : list message) :
  initiate_chat w Data_Architect task 3 = (Return arch_chat, w1) ->
  let result := run task max_review_cycles (start w) in
  let draft := extract_code_from_chat arch_chat DRAFTER in
  ((1 <= max_review_cycles)%Z ->
     exists evs,
       trace (snd result)
       = EChat Data_Architect task 3 (Return arch_chat)
         :: ECheck 1 draft :: evs)
  /\ (max_review_cycles = 0%Z ->
      count_checks (trace (snd result)) = 0%nat
      /\ revision_requests (trace (snd result)) = 0%nat
      /\ (fst result = Return tt ->
          exists pre,
            trace (snd result)
            = pre ++ [EWrite (output_path script_dir
                                (lit "approved_script.py"))
                        (script_file false draft)])).
Proof.
  intros Hchat result draft. subst result. rewrite run_unfold, Hchat.
  split.
  - intros Hmax.
    assert (Hrange : range 1 (max_review_cycles + 1)
                     = 1%Z :: range_from 2 (Z.to_nat (max_review_cycles - 1))).
    { unfold range.
      replace (Z.to_nat (max_review_cycles + 1 - 1))
        with (S (Z.to_nat (max_review_cycles - 1))) by lia.
      reflexivity. }
    rewrite Hrange.
    match goal with |- context [loop (?c :: ?rest) ?m ?s ?h ?st] =>
      destruct (review_loop_first m c rest s h st) as (evs & Htr);
      destruct (loop (c :: rest) m s h st) as [[[[approved s'] h']|e2] st2]
    end; cbn [snd trace app] in Htr.
    + destruct (initiate_chat (world st2) _ _ _) as [[cloud_chat|e3] w3];
        cbn [snd trace]; rewrite Htr; cbn [app]; eauto.
    + cbn [snd]. rewrite Htr. eauto.
  - intros ->. change (range 1 (0 + 1)) with (@nil Z).
    cbn [review_loop]. unfold ret. cbn [world trace].
    destruct (initiate_chat _ Cloud_Architect _ _) as [[cloud_chat|e3] w3];
      cbn [fst snd trace app].
    + split; [reflexivity|]. split; [reflexivity|]. intros _.
      unfold artifacts. eexists [_; _; _; _; _; _; _]. reflexivity.
    + split; [reflexivity|]. split; [reflexivity|]. discriminate.
Qed.

End PipelineFacts.

(** ** The pipeline on scripted worlds *)

Lemma review_loop_bounded_witness :
  (Z.of_nat (revision_requests
               (trace (snd (run_scripted SCENARIO_TASK
                              DEFAULT_MAX_REVIEW_CYCLES WORLD_STUBBORN))))
   <= DEFAULT_MAX_REVIEW_CYCLES)%Z.
Proof.
  refine (proj1 (review_loop_bounded identity_case identity_case (lit "/app")
                   scripted scripted_chat SCENARIO_TASK
                   DEFAULT_MAX_REVIEW_CYCLES WORLD_STUBBORN _)).
  unfold DEFAULT_MAX_REVIEW_CYCLES; lia.
Defined.

(** With the default of four cycles and a drafting agent that never
    satisfies the check: four checks, three revision requests. *)
Example stubborn_run_counts :
  let tr := trace (snd (run_scripted SCENARIO_TASK DEFAULT_MAX_REVIEW_CYCLES
                          WORLD_STUBBORN)) in
  count_checks tr = 4%nat /\ revision_requests tr = 3%nat
  /\ written_to SCRIPT_PATH tr = [script_file false (lit "print(4)")].
Proof. vm_compute. repeat split; reflexivity. Qed.

Lemma revision_requests_bounded_witness :
  (Z.of_nat (revision_requests
               (trace (snd (run_scripted SCENARIO_TASK
                              DEFAULT_MAX_REVIEW_CYCLES WORLD_STUBBORN))))
   <= DEFAULT_MAX_REVIEW_CYCLES - 1)%Z.
Proof.
  refine (proj1 (revision_requests_bounded identity_case identity_case
                   (lit "/app") scripted scripted_chat SCENARIO_TASK
                   DEFAULT_MAX_REVIEW_CYCLES WORLD_STUBBORN _)).
  unfold DEFAULT_MAX_REVIEW_CYCLES; lia.
Defined.

Lemma no_artifact_on_error_witness :
  forallb (fun ev => negb (is_file_effect ev))
    (trace (snd (run_scripted SCENARIO_TASK DEFAULT_MAX_REVIEW_CYCLES
                   WORLD_OUTAGE))) = true.
Proof.
  refine (proj1 (proj2 (no_artifact_on_error identity_case identity_case
                          (lit "/app") scripted scripted_chat SCENARIO_TASK
                          DEFAULT_MAX_REVIEW_CYCLES WORLD_OUTAGE _))).
  vm_compute; reflexivity.
Defined.

(** The outage hits the first revision request: the draft was received and
    checked, and the run ends with the error of the service. *)
Example outage_run :
  let result := run_scripted SCENARIO_TASK DEFAULT_MAX_REVIEW_CYCLES
                  WORLD_OUTAGE in
  fst result = Raise (HTTPError 503)
  /\ count_checks (trace (snd result)) = 1%nat
  /\ count_chats Data_Architect (trace (snd result)) = 2%nat.
Proof. vm_compute. repeat split; reflexivity. Qed.

(** The claim C3 as the specification words it fails: when the chats of the
    drafting agent yield no content, the run ends marked BEST EFFORT and the
    body of the script artifact is the empty text. *)
Lemma empty_script_counterexample :
  let result := run_scripted SCENARIO_TASK DEFAULT_MAX_REVIEW_CYCLES
                  WORLD_SILENT in
  fst result = Return tt
  /\ written_to SCRIPT_PATH (trace (snd result)) = [script_file false []]
  /\ script_file false []
     = lit "# Auto-generated by Data_Architect" ++ [NL]
       ++ lit "# Review Status: BEST EFFORT" ++ [NL; NL].
Proof. vm_compute. repeat split; reflexivity. Qed.

Lemma script_artifact_body_witness :
  exists pre approved history,
    last_draft (trace (snd (run_scripted SCENARIO_TASK
                              DEFAULT_MAX_REVIEW_CYCLES WORLD_STUBBORN)))
    = Some history
    /\ trace (snd (run_scripted SCENARIO_TASK DEFAULT_MAX_REVIEW_CYCLES
                     WORLD_STUBBORN))
       = pre ++ [EWrite SCRIPT_PATH
                   (script_file approved
                      (extract_code_from_chat history (lit "Data_Architect")))]
    /\ (filter (authored_by (lit "Data_Architect")) history = [] ->
        extract_code_from_chat history (lit "Data_Architect") = [])
    /\ (approved = true ->
        fst (local_quality_check
               (extract_code_from_chat history (lit "Data_Architect")))
        = true).
Proof.
  refine (script_artifact_body identity_case identity_case (lit "/app")
            scripted scripted_chat SCENARIO_TASK DEFAULT_MAX_REVIEW_CYCLES
            WORLD_STUBBORN _).
  vm_compute; reflexivity.
Defined.

(** The claim C5 as the specification words it fails for
    [max_review_cycles = 0]: the check is never run, and a draft that passes
    it is still delivered as BEST EFFORT. *)
Lemma no_validation_counterexample :
  let result := run_scripted SCENARIO_TASK 0 WORLD_GOOD in
  fst result = Return tt
  /\ count_checks (trace (snd result)) = 0%nat
  /\ local_quality_check GOOD_SCRIPT = (true, [])
  /\ written_to SCRIPT_PATH (trace (snd result))
     = [script_file false GOOD_SCRIPT].
Proof. vm_compute. repeat split; reflexivity. Qed.

Lemma initial_draft_validation_witness :
  exists evs,
    trace (snd (run_scripted SCENARIO_TASK DEFAULT_MAX_REVIEW_CYCLES
                  WORLD_STUBBORN))
    = EChat Data_Architect SCENARIO_TASK 3
        (Return (draft_reply (lit "print(1)")))
      :: ECheck 1 (lit "print(1)") :: evs.
Proof.
  refine (proj1 (initial_draft_validation identity_case identity_case
                   (lit "/app") scripted scripted_chat SCENARIO_TASK
                   DEFAULT_MAX_REVIEW_CYCLES WORLD_STUBBORN
                   (tl WORLD_STUBBORN) (draft_reply (lit "print(1)")) _) _).
  - reflexivity.
  - unfold DEFAULT_MAX_REVIEW_CYCLES; lia.
Defined.

(** The scenario of the specification: no review cycle and a draft that
    fails the check. *)
Example zero_cycles_scenario :
  let result := run_scripted SCENARIO_TASK 0 WORLD_STUBBORN in
  fst result = Return tt
  /\ revision_requests (trace (snd result)) = 0%nat
  /\ written_to SCRIPT_PATH (trace (snd result))
     = [script_file false (lit "print(1)")].
Proof. vm_compute. repeat split; reflexivity. Qed.

(* ===================================================================== *)
(** * Further properties of the code *)
(* ===================================================================== *)

(** ** Trimmed texts *)

Lemma rstrip_split (s : str) :
  exists ws, s = rstrip s ++ ws /\ blank ws = true.
Proof.
  destruct (lstrip_split (rev s)) as (ws & Hs & Hws).
  exists (rev ws). split.
  - unfold rstrip. rewrite <- rev_app_distr, <- Hs. now rewrite rev_involutive.
  - now rewrite blank_rev.
Qed.

Lemma rstrip_dark_start (s : str) : starts_dark s -> starts_dark (rstrip s).
Proof.
  intros H. destruct (rstrip_split s) as (ws & Hs & _).
  destruct (rstrip s) as [|c t]; [exact I|].
  rewrite Hs in H. exact H.
Qed.

Lemma strip_dark_start (s : str) : starts_dark (strip s).
Proof. apply rstrip_dark_start, lstrip_dark. Qed.

Lemma strip_dark_end (s : str) : starts_dark (rev (strip s)).
Proof.
  unfold strip, rstrip. rewrite rev_involutive. apply lstrip_dark.
Qed.

(** A text that neither starts nor ends with white space is its own
    trimming. *)
Lemma strip_of_trimmed (s : str) :
  starts_dark s -> starts_dark (rev s) -> strip s = s.
Proof.
  intros Hs Hr. unfold strip, rstrip.
  rewrite (lstrip_of_dark s Hs), (lstrip_of_dark _ Hr).
  apply rev_involutive.
Qed.

Lemma strip_idem (s : str) : strip (strip s) = strip s.
Proof. apply strip_of_trimmed; [apply strip_dark_start|apply strip_dark_end]. Qed.

(** ** The slug of [save_conversation] *)

Lemma forallb_lstrip (P : char -> bool) (s : str) :
  forallb P s = true -> forallb P (lstrip s) = true.
Proof.
  induction s as [|c s IH]; [trivial|]. cbn [lstrip].
  destruct (is_space c); [|trivial].
  cbn [forallb]. intros H; apply andb_true_iff in H as [_ H]. auto.
Qed.

Lemma forallb_rev (P : char -> bool) (s : str) :
  forallb P (rev s) = forallb P s.
Proof.
  induction s as [|c s IH]; [reflexivity|].
  cbn [rev forallb]. rewrite forallb_app, IH. cbn [forallb].
  now rewrite andb_true_r, andb_comm.
Qed.

Lemma forallb_strip (P : char -> bool) (s : str) :
  forallb P s = true -> forallb P (strip s) = true.
Proof.
  intros H. unfold strip, rstrip. rewrite forallb_rev.
  apply forallb_lstrip. rewrite forallb_rev. now apply forallb_lstrip.
Qed.

Lemma forallb_firstn (P : char -> bool) (n : nat) (s : str) :
  forallb P s = true -> forallb P (firstn n s) = true.
Proof.
  revert n; induction s as [|c s IH]; intros [|n]; cbn [firstn forallb];
    trivial.
  intros H; apply andb_true_iff in H as [-> H]. cbn [andb]. auto.
Qed.

Lemma sub_space_runs_chars (in_run : bool) (s : str) :
  forallb (fun c => is_lower_or_digit c || is_space c) s = true ->
  forallb is_slug_char (sub_space_runs (lit "_") in_run s) = true.
Proof.
  revert in_run; induction s as [|c s IH]; intros in_run; [reflexivity|].
  cbn [forallb sub_space_runs]. intros H; apply andb_true_iff in H as [Hc Hs].
  destruct (is_space c) eqn:E.
  - rewrite forallb_app, (IH _ Hs). destruct in_run; reflexivity.
  - rewrite orb_false_r in Hc. cbn [forallb]. rewrite (IH _ Hs).
    unfold is_slug_char. now rewrite Hc.
Qed.

Lemma filter_keeps (P : char -> bool) (s : str) :
  forallb P (filter P s) = true.
Proof.
  induction s as [|c s IH]; [reflexivity|]. cbn [filter].
  destruct (P c) eqn:E; [|exact IH]. cbn [forallb]. now rewrite E.
Qed.

(** X1. The slug is safe in a file name, whatever the task: it has at most
    40 characters, each a lower-case ASCII letter, a digit or an
    underscore. *)
Theorem slug_is_safe (nonascii_lower : char -> str) (task_message : str) :
  (List.length (slug_of nonascii_lower task_message) <= 40)%nat
  /\ forallb is_slug_char (slug_of nonascii_lower task_message) = true.
Proof.
  unfold slug_of. split.
  - apply firstn_le_length.
  - apply forallb_firstn, sub_space_runs_chars, forallb_strip, filter_keeps.
Qed.

Lemma no_adjacent_cons (c x : char) (s : str) :
  (x =? c) = false -> no_adjacent c s = true -> no_adjacent c (x :: s) = true.
Proof.
  intros Hx Hs. cbn [no_adjacent]. destruct s as [|y s]; [reflexivity|].
  now rewrite Hx, Hs.
Qed.

Lemma sub_space_runs_adjacent (s : str) :
  clean s = true ->
  forall in_run,
    no_adjacent UNDERSCORE (sub_space_runs (lit "_") in_run s) = true
    /\ (in_run = true ->
        startswith (lit "_") (sub_space_runs (lit "_") in_run s) = false).
Proof.
  unfold clean.
  induction s as [|c s IH]; intros Hs in_run; [split; reflexivity|].
  cbn [forallb] in Hs. apply andb_true_iff in Hs as [Hc Hs].
  apply negb_true_iff in Hc.
  destruct (IH Hs true) as [IHt IHs]. destruct (IH Hs false) as [IHf _].
  cbn [sub_space_runs]. destruct (is_space c) eqn:E.
  - destruct in_run.
    + split; [exact IHt|auto].
    + split; [|discriminate].
      change (lit "_" ++ sub_space_runs (lit "_") true s)
        with (UNDERSCORE :: sub_space_runs (lit "_") true s).
      specialize (IHs eq_refl).
      destruct (sub_space_runs (lit "_") true s) as [|y t] eqn:Et;
        [reflexivity|].
      change (negb ((UNDERSCORE =? UNDERSCORE) && (y =? UNDERSCORE))
              && no_adjacent UNDERSCORE (y :: t) = true).
      rewrite IHt.
      cbn [startswith lit] in IHs. rewrite andb_true_r in IHs.
      change (N_of_ascii "_") with UNDERSCORE in IHs.
      rewrite N.eqb_sym in IHs. rewrite IHs, andb_false_r. reflexivity.
  - split.
    + now apply no_adjacent_cons.
    + intros _. cbn [startswith lit]. change (N_of_ascii "_") with UNDERSCORE.
      rewrite N.eqb_sym, Hc. reflexivity.
Qed.

Lemma no_adjacent_step (c x y : char) (t : str) :
  no_adjacent c (x :: y :: t)
  = negb ((x =? c) && (y =? c)) && no_adjacent c (y :: t).
Proof. reflexivity. Qed.

Lemma no_adjacent_firstn (c : char) (n : nat) (s : str) :
  no_adjacent c s = true -> no_adjacent c (firstn n s) = true.
Proof.
  revert n; induction s as [|x s IH]; intros n H; [now destruct n|].
  destruct n as [|n]; [reflexivity|]. cbn [firstn].
  destruct s as [|y s]; [destruct n; reflexivity|].
  rewrite no_adjacent_step in H. apply andb_true_iff in H as [Hxy Hs].
  specialize (IH n Hs). destruct n as [|n]; [reflexivity|].
  cbn [firstn] in *. rewrite no_adjacent_step. now rewrite Hxy, IH.
Qed.

Lemma no_adjacent_contains (c : char) (s : str) :
  no_adjacent c s = true -> contains [c; c] s = false.
Proof.
  induction s as [|x s IH]; [reflexivity|].
  intros H. destruct s as [|y s].
  - cbn [contains startswith]. now rewrite andb_false_r.
  - rewrite no_adjacent_step in H. apply andb_true_iff in H as [Hxy Hs].
    change (contains [c; c] (x :: y :: s))
      with (startswith [c; c] (x :: y :: s) || contains [c; c] (y :: s)).
    rewrite (IH Hs), orb_false_r. cbn [startswith].
    apply negb_true_iff in Hxy. rewrite andb_true_r.
    now rewrite (N.eqb_sym c x), (N.eqb_sym c y).
Qed.

Lemma filter_clean (s : str) :
  clean (filter (fun c => is_lower_or_digit c || is_space c) s) = true.
Proof.
  unfold clean. induction s as [|c s IH]; [reflexivity|]. cbn [filter].
  destruct (is_lower_or_digit c || is_space c) eqn:E; [|exact IH].
  cbn [forallb]. rewrite IH, andb_true_r.
  destruct (N.eqb_spec c UNDERSCORE) as [->|]; [discriminate E|reflexivity].
Qed.

Lemma startswith_firstn_false (p : str) (n : nat) (s : str) :
  startswith p s = false -> p <> [] -> startswith p (firstn n s) = false.
Proof.
  revert n s; induction p as [|x p IH]; intros n s H Hp; [congruence|].
  destruct s as [|y s]; [destruct n; reflexivity|].
  destruct n as [|n]; [reflexivity|]. cbn [firstn startswith] in *.
  destruct (x =? y); [|reflexivity]. cbn [andb] in *.
  destruct p as [|z p]; [discriminate H|]. apply IH; [assumption|discriminate].
Qed.

(** X2. White space at the ends of the task leaves no trace and inner white
    space is collapsed: the slug never begins with an underscore and never
    holds two underscores in a row. *)
Theorem slug_underscores (nonascii_lower : char -> str) (task_message : str) :
  startswith (lit "_") (slug_of nonascii_lower task_message) = false
  /\ contains (lit "__") (slug_of nonascii_lower task_message) = false.
Proof.
  unfold slug_of.
  set (kept := filter (fun c => is_lower_or_digit c || is_space c)
                 (lower nonascii_lower task_message)).
  assert (Hclean : clean (strip kept) = true)
    by (apply forallb_strip, filter_clean).
  destruct (sub_space_runs_adjacent _ Hclean false) as [Hadj _].
  split.
  - apply startswith_firstn_false; [|discriminate].
    pose proof (strip_dark_start kept) as Hd.
    destruct (strip kept) as [|c t]; [reflexivity|].
    cbn [starts_dark] in Hd. cbn [sub_space_runs]. rewrite Hd.
    cbn [forallb clean] in Hclean. unfold clean in Hclean.
    cbn [forallb] in Hclean. apply andb_true_iff in Hclean as [Hc _].
    apply negb_true_iff in Hc. cbn [startswith lit].
    change (N_of_ascii "_") with UNDERSCORE. now rewrite N.eqb_sym, Hc.
  - apply (no_adjacent_contains UNDERSCORE), no_adjacent_firstn, Hadj.
Qed.

Lemma lower_plain (nonascii_lower : char -> str) (s : str) :
  forallb (fun c => (c <? 128) && negb (is_ascii_alnum c)) s = true ->
  filter (fun c => is_lower_or_digit c || is_space c) (lower nonascii_lower s)
  = filter is_space s.
Proof.
  induction s as [|c s IH]; [reflexivity|].
  cbn [forallb]. intros H; apply andb_true_iff in H as [Hc Hs].
  apply andb_true_iff in Hc as [Hascii Halnum].
  apply negb_true_iff in Halnum. unfold is_ascii_alnum in Halnum.
  apply orb_false_iff in Halnum as [Hupper Hlow].
  unfold lower. cbn [flat_map]. fold (lower nonascii_lower s).
  unfold lower_char. rewrite Hupper, Hascii. cbn [app filter].
  rewrite Hlow, (IH Hs). reflexivity.
Qed.

Lemma filter_space_blank (s : str) : blank (filter is_space s) = true.
Proof. apply filter_keeps. Qed.

Lemma strip_blank (s : str) : blank s = true -> strip s = [].
Proof. intros H. unfold strip. now rewrite (lstrip_blank _ H). Qed.

(** X3. A task without an ASCII letter or digit (punctuation and white
    space only) has the empty slug: every such task is saved under the same
    name, the bare suffix. *)
Theorem slug_of_punctuation (nonascii_lower : char -> str) (task_message : str) :
  forallb (fun c => (c <? 128) && negb (is_ascii_alnum c)) task_message = true ->
  slug_of nonascii_lower task_message = []
  /\ transcript_path nonascii_lower (lit "/app") task_message
     = lit "/app/samples/_full_squad.txt".
Proof.
  intros H.
  assert (E : slug_of nonascii_lower task_message = []).
  { unfold slug_of. rewrite (lower_plain _ _ H).
    now rewrite (strip_blank _ (filter_space_blank _)). }
  split; [exact E|]. unfold transcript_path. now rewrite E.
Qed.

Lemma slug_of_punctuation_witness :
  slug_of identity_case (lit "?!  ... ???") = [].
Proof.
  apply (slug_of_punctuation identity_case (lit "?!  ... ???")).
  vm_compute; reflexivity.
Defined.

(** ** The quality gate, once more *)

Lemma contains_around (p a s b : str) :
  contains p s = true -> contains p (a ++ s ++ b) = true.
Proof. intros H. apply contains_app_r. now apply contains_app_l. Qed.

(** X4. The gate looks for the markers anywhere in the text: text added in
    front of a script or after it never turns a satisfied rule into a
    failure.  Every failure reported for the longer text is reported for
    the script alone, and a script that passes still passes. *)
Theorem local_quality_check_monotone (code before after : str) :
  (forall f,
     In f (snd (local_quality_check (before ++ code ++ after))) ->
     In f (snd (local_quality_check code)))
  /\ (fst (local_quality_check code) = true ->
      fst (local_quality_check (before ++ code ++ after)) = true).
Proof.
  pose proof (contains_around (lit "partitionBy") before code after) as H1.
  pose proof (contains_around (lit "to_date") before code after) as H2.
  pose proof (contains_around (lit "StructType") before code after) as H3.
  pose proof (contains_around (lit "StructField") before code after) as H4.
  rewrite !local_quality_check_failures. unfold local_quality_check.
  destruct (contains (lit "partitionBy") code);
    [rewrite (H1 eq_refl)|destruct (contains (lit "partitionBy") _)];
  (destruct (contains (lit "to_date") code);
    [rewrite (H2 eq_refl)|destruct (contains (lit "to_date") _)]);
  (destruct (contains (lit "StructType") code);
    [rewrite (H3 eq_refl)|destruct (contains (lit "StructType") _)]);
  (destruct (contains (lit "StructField") code);
    [rewrite (H4 eq_refl)|destruct (contains (lit "StructField") _)]);
  cbn; split; try tauto; try discriminate; intros f; tauto.
Qed.

Lemma local_quality_check_monotone_witness :
  fst (local_quality_check (lit "# job" ++ GOOD_SCRIPT ++ lit " ")) = true.
Proof.
  apply (proj2 (local_quality_check_monotone GOOD_SCRIPT (lit "# job")
                  (lit " "))).
  reflexivity.
Defined.

(** X5. The gate does not tell code from prose: whatever the text, adding a
    line that names the three markers makes it pass. *)
Theorem local_quality_check_by_comment (code : str) :
  local_quality_check
    (code ++ [NL] ++ lit "# partitionBy to_date StructType")
  = (true, []).
Proof.
  assert (H1 : contains (lit "partitionBy")
                 (code ++ [NL] ++ lit "# partitionBy to_date StructType")
               = true)
    by (apply contains_app_r; reflexivity).
  assert (H2 : contains (lit "to_date")
                 (code ++ [NL] ++ lit "# partitionBy to_date StructType")
               = true)
    by (apply contains_app_r; reflexivity).
  assert (H3 : contains (lit "StructType")
                 (code ++ [NL] ++ lit "# partitionBy to_date StructType")
               = true)
    by (apply contains_app_r; reflexivity).
  unfold local_quality_check. rewrite H1, H2, H3. reflexivity.
Qed.

(** ** The revision request *)

Lemma contains_join (sep f : str) (parts : list str) :
  In f parts -> contains f (join sep parts) = true.
Proof.
  induction parts as [|p ps IH]; [contradiction|].
  intros [->|Hin].
  - destruct ps as [|q ps]; cbn [join].
    + pose proof (contains_here f []) as H. now rewrite app_nil_r in H.
    + apply contains_here.
  - specialize (IH Hin). destruct ps as [|q ps]; [contradiction|].
    cbn [join]. now apply contains_app_r, contains_app_r.
Qed.

(** X6. The revision request carries every failure message of the check
    verbatim, and it is never empty of them: for a script that fails the
    check, at least one rule is named. *)
Theorem revision_message_complete (code : str) :
  (forall f,
     In f (snd (local_quality_check code)) ->
     contains f (revision_message (snd (local_quality_check code))) = true)
  /\ (fst (local_quality_check code) = false ->
      contains (lit "[RULE ")
        (revision_message (snd (local_quality_check code))) = true).
Proof.
  assert (Hall : forall f,
             In f (snd (local_quality_check code)) ->
             contains f (revision_message (snd (local_quality_check code)))
             = true).
  { intros f Hin. unfold revision_message.
    apply contains_app_r, contains_app_r, contains_app_l.
    now apply contains_join. }
  split; [exact Hall|].
  intros Hfail.
  assert (Hsome : exists f, In f (snd (local_quality_check code))
                            /\ contains (lit "[RULE ") f = true).
  { revert Hfail. rewrite local_quality_check_failures.
    unfold local_quality_check.
    destruct (contains (lit "partitionBy") code);
      destruct (contains (lit "to_date") code);
      destruct (contains (lit "StructType") code);
      destruct (contains (lit "StructField") code); cbn [fst];
      try discriminate; intros _; eexists; (split; [left; reflexivity|]);
      reflexivity. }
  destruct Hsome as (f & Hin & Hf).
  apply contains_elim in Hf as (a & b & Hf).
  specialize (Hall f Hin). apply contains_elim in Hall as (u & v & ->).
  rewrite Hf, <- !app_assoc. apply contains_app_r, contains_app_r.
  apply contains_here.
Qed.

Lemma revision_message_complete_witness :
  contains (lit "[RULE ")
    (revision_message (snd (local_quality_check (lit "print(1)")))) = true.
Proof.
  apply (proj2 (revision_message_complete (lit "print(1)"))).
  reflexivity.
Defined.

(** ** The two extractors *)

Lemma extract_text_stitched (chat_history : list message) (agent_name : str) :
  extract_text_from_chat chat_history agent_name
  = join [NL]
      (map trimmed_content (filter (authored_by agent_name) chat_history)).
Proof. unfold extract_text_from_chat. now rewrite text_parts_filter. Qed.

(** X7. A history in which the agent has no message with content (none of
    its name, or only blank ones) gives the empty text, from both
    extractors. *)
Theorem extract_nothing (chat_history : list message) (agent_name : str) :
  filter (authored_by agent_name) chat_history = [] ->
  extract_code_from_chat chat_history agent_name = []
  /\ extract_text_from_chat chat_history agent_name = [].
Proof.
  intros H. split; [now apply extract_code_no_message|].
  now rewrite extract_text_stitched, H.
Qed.

Lemma extract_nothing_witness :
  extract_code_from_chat
    [says "Admin" (lit "```python" ++ [NL] ++ lit "x = 1" ++ [NL] ++ lit "```");
     Message (Some (lit "assistant")) (Some (lit "Data_Architect")) None;
     says "Data_Architect" (lit "   ")]
    (lit "Data_Architect") = [].
Proof.
  apply (extract_nothing
           [says "Admin"
              (lit "```python" ++ [NL] ++ lit "x = 1" ++ [NL] ++ lit "```");
            Message (Some (lit "assistant")) (Some (lit "Data_Architect")) None;
            says "Data_Architect" (lit "   ")]
           (lit "Data_Architect")).
  vm_compute; reflexivity.
Defined.

(** X8. Both extractors read only the messages of the agent that carry
    content: a message of another author, or a blank one, can be put
    anywhere in the history without changing what is extracted. *)
Theorem extract_ignores_others (before after : list message) (m : message)
    (agent_name : str) :
  authored_by agent_name m = false ->
  extract_code_from_chat (before ++ m :: after) agent_name
  = extract_code_from_chat (before ++ after) agent_name
  /\ extract_text_from_chat (before ++ m :: after) agent_name
     = extract_text_from_chat (before ++ after) agent_name.
Proof.
  intros Hm.
  assert (E : filter (authored_by agent_name) (before ++ m :: after)
              = filter (authored_by agent_name) (before ++ after)).
  { rewrite !filter_app. cbn [filter]. now rewrite Hm. }
  split.
  - unfold extract_code_from_chat. now rewrite !code_parts_filter, E.
  - now rewrite !extract_text_stitched, E.
Qed.

Lemma extract_ignores_others_witness :
  extract_code_from_chat
    ([says "Data_Architect" (lit "alpha")]
     ++ says "Admin" (lit "```python" ++ [NL] ++ lit "x" ++ [NL] ++ lit "```")
     :: [says "Data_Architect" (lit "beta")])
    (lit "Data_Architect")
  = extract_code_from_chat
      ([says "Data_Architect" (lit "alpha")]
       ++ [says "Data_Architect" (lit "beta")])
      (lit "Data_Architect").
Proof.
  apply (extract_ignores_others
           [says "Data_Architect" (lit "alpha")]
           [says "Data_Architect" (lit "beta")]
           (says "Admin"
              (lit "```python" ++ [NL] ++ lit "x" ++ [NL] ++ lit "```"))
           (lit "Data_Architect")).
  vm_compute; reflexivity.
Defined.

Lemma extract_code_fallback (chat_history : list message) (agent_name : str) :
  has_fenced_block (extract_text_from_chat chat_history agent_name) = false ->
  extract_code_from_chat chat_history agent_name
  = extract_text_from_chat chat_history agent_name.
Proof.
  rewrite extract_text_stitched, <- code_parts_filter. intros H.
  unfold extract_code_from_chat.
  destruct (code_parts chat_history agent_name) as [|p ps] eqn:E;
    [reflexivity|].
  cbv zeta. now rewrite (findall_no_block _ H).
Qed.

(** X9. On a history whose text of the agent holds no fenced block the two
    extractors agree. *)
Theorem extract_code_is_text (chat_history : list message) (agent_name : str) :
  has_fenced_block (extract_text_from_chat chat_history agent_name) = false ->
  extract_code_from_chat chat_history agent_name
  = extract_text_from_chat chat_history agent_name.
Proof. apply extract_code_fallback. Qed.

Lemma extract_code_is_text_witness :
  extract_code_from_chat
    [says "Data_Architect" (lit "df = spark.read.json(p)");
     says "Data_Architect" (lit "df.show()")]
    (lit "Data_Architect")
  = extract_text_from_chat
      [says "Data_Architect" (lit "df = spark.read.json(p)");
       says "Data_Architect" (lit "df.show()")]
      (lit "Data_Architect").
Proof.
  apply (extract_code_is_text
           [says "Data_Architect" (lit "df = spark.read.json(p)");
            says "Data_Architect" (lit "df.show()")]
           (lit "Data_Architect")).
  vm_compute; reflexivity.
Defined.

(** *** A second pass *)

Lemma str_eqb_refl (s : str) : str_eqb s s = true.
Proof.
  induction s as [|c s IH]; [reflexivity|]. cbn [str_eqb].
  now rewrite N.eqb_refl, IH.
Qed.

Lemma join_not_nil (sep p : str) (ps : list str) :
  p <> [] -> join sep (p :: ps) <> [].
Proof.
  intros Hp. destruct ps; cbn [join]; [assumption|].
  destruct p; [congruence|discriminate].
Qed.

Lemma join_trimmed (parts : list str) :
  parts <> [] -> Forall trimmed parts -> trimmed (join [NL] parts).
Proof.
  induction parts as [|p ps IH]; [congruence|].
  intros _ Hall. inversion Hall as [|? ? (Hne & Hs & He) Hps]; subst.
  destruct ps as [|q ps]; [cbn [join]; now repeat split|].
  assert (Hq : trimmed (join [NL] (q :: ps))) by (apply IH; [discriminate|assumption]).
  destruct Hq as (Hqne & _ & Hqe).
  change (join [NL] (p :: q :: ps)) with (p ++ [NL] ++ join [NL] (q :: ps)).
  split; [|split].
  - destruct p; [congruence|discriminate].
  - destruct p; [congruence|exact Hs].
  - rewrite !rev_app_distr.
    destruct (rev (join [NL] (q :: ps))) as [|c t] eqn:E.
    + apply (f_equal (@rev char)) in E. rewrite rev_involutive in E.
      change (rev []) with (@nil char) in E. congruence.
    + exact Hqe.
Qed.

Lemma code_parts_trimmed (chat_history : list message) (agent_name : str) :
  Forall trimmed (code_parts chat_history agent_name).
Proof.
  induction chat_history as [|m h IH]; [constructor|].
  cbn [code_parts].
  destruct (str_eqb _ _ && truthy _) eqn:E; [|exact IH].
  constructor; [|exact IH].
  apply andb_true_iff in E as [_ E].
  split; [|split].
  - destruct (strip _); [discriminate|discriminate].
  - apply strip_dark_start.
  - apply strip_dark_end.
Qed.

(** X10. When no fenced block is found the extracted text is already
    trimmed and is a fixed point of the extraction: handed back as the one
    message of the agent, it is extracted unchanged. *)
Theorem extract_code_second_pass (chat_history : list message)
    (agent_name : str) (r : option str) :
  has_fenced_block (extract_text_from_chat chat_history agent_name) = false ->
  extract_code_from_chat
    [Message r (Some agent_name)
       (Some (extract_code_from_chat chat_history agent_name))]
    agent_name
  = extract_code_from_chat chat_history agent_name.
Proof.
  intros H. rewrite (extract_code_fallback _ _ H).
  rewrite extract_text_stitched, <- code_parts_filter in *.
  pose proof (code_parts_trimmed chat_history agent_name) as Htr.
  destruct (code_parts chat_history agent_name) as [|p ps] eqn:E.
  - unfold extract_code_from_chat. cbn [code_parts name content get join].
    change (strip []) with (@nil char). cbn [truthy].
    now rewrite andb_false_r.
  - destruct (join_trimmed (p :: ps)) as (Hne & Hs & He);
      [discriminate|assumption|].
    unfold extract_code_from_chat. cbn [code_parts name content get].
    rewrite str_eqb_refl, (strip_of_trimmed _ Hs He).
    destruct (join [NL] (p :: ps)) as [|c t] eqn:Ej; [congruence|].
    cbn [truthy andb]. cbv zeta. cbn [join].
    now rewrite (findall_no_block _ H).
Qed.

Lemma extract_code_second_pass_witness :
  extract_code_from_chat
    [Message None (Some (lit "Data_Architect"))
       (Some (extract_code_from_chat
                [says "Data_Architect" (lit " df = 1 ");
                 says "Data_Architect" (lit "df.show()")]
                (lit "Data_Architect")))]
    (lit "Data_Architect")
  = extract_code_from_chat
      [says "Data_Architect" (lit " df = 1 ");
       says "Data_Architect" (lit "df.show()")]
      (lit "Data_Architect").
Proof.
  apply (extract_code_second_pass
           [says "Data_Architect" (lit " df = 1 ");
            says "Data_Architect" (lit "df.show()")]
           (lit "Data_Architect") None).
  vm_compute; reflexivity.
Defined.

(** *** What the group of a match holds *)

Lemma fence_free_nil : fence_free [] = true.
Proof. reflexivity. Qed.

Lemma fence_free_cons (c : char) (u rest : str) :
  startswith FENCE (c :: u ++ FENCE ++ rest) = false ->
  fence_free u = true -> fence_free (c :: u) = true.
Proof.
  unfold fence_free. rewrite !negb_true_iff. intros Hs Hu.
  change ((c :: u) ++ [BACKTICK; BACKTICK])
    with (c :: u ++ [BACKTICK; BACKTICK]).
  cbn [contains]. rewrite Hu, orb_false_r.
  change (c :: u ++ FENCE ++ rest)
    with ((c :: u) ++ [BACKTICK; BACKTICK] ++ BACKTICK :: rest) in Hs.
  rewrite app_assoc, startswith_long in Hs; [exact Hs|].
  cbn [List.length app]. rewrite length_app. cbn. lia.
Qed.

Lemma startswith_strip_prefix (p s : str) :
  strip_prefix p s = None -> startswith p s = false.
Proof. unfold strip_prefix. now destruct (startswith p s). Qed.

(** The lazy star stops at the first fence, when what follows a fence
    always matches. *)
Lemma lazy_stops_at_fence (K : str -> str -> answer) (s : str)
    (r : option str * str) :
  (forall a b, K a b <> None) ->
  lazy s (fun s' => match strip_prefix FENCE s' with
                    | Some s3 => K s' s3
                    | None => None
                    end) = Some r ->
  exists u rest,
    s = u ++ FENCE ++ rest /\ fence_free u = true
    /\ K (FENCE ++ rest) rest = Some r.
Proof.
  intros HK. induction s as [|c s IH]; rewrite lazy_unfold; cbv beta.
  - cbn. discriminate.
  - destruct (strip_prefix FENCE (c :: s)) as [s3|] eqn:E.
    + pose proof (strip_prefix_elim _ _ _ E) as Es.
      destruct (K (c :: s) s3) as [v|] eqn:Ek; [|now apply HK in Ek].
      cbn [orelse]. intros [= <-]. exists [], s3. rewrite Es in Ek.
      now rewrite Es.
    + cbn [orelse]. intros H. destruct (IH H) as (u & rest & -> & Hu & Hr).
      exists (c :: u), rest. split; [reflexivity|]. split; [|exact Hr].
      apply (fence_free_cons c u rest); [|exact Hu].
      now apply startswith_strip_prefix.
Qed.

Lemma body_match_group (s : str) (g g' : option str) (rest : str) :
  rmatch body_re s g accept = Some (g', rest) ->
  exists u, s = u ++ FENCE ++ rest /\ g' = Some u /\ fence_free u = true.
Proof.
  unfold body_re; cbn [rmatch]; intros H.
  apply (lazy_stops_at_fence
           (fun s' s3 =>
              accept s3 (Some (firstn (List.length s - List.length s') s))))
    in H; [|discriminate].
  destruct H as (u & rest' & -> & Hu & H).
  unfold accept in H. injection H as <- <-.
  exists u. split; [reflexivity|]. split; [|exact Hu].
  rewrite length_app, Nat.add_sub.
  now rewrite firstn_app, firstn_all, Nat.sub_diag, app_nil_r.
Qed.

Lemma fence_match_group (s : str) (g : option str) (rest : str) :
  match_here fence_re s = Some (g, rest) ->
  exists b, g = Some b /\ fence_free b = true.
Proof.
  unfold match_here, fence_re; cbn [rmatch]; intros H.
  destruct (strip_prefix FENCE s) as [s1|]; [|discriminate].
  apply rmatch_sound in H as (u1 & s2 & g2 & _ & H).
  unfold fence_tail_re in H; cbn [rmatch] in H.
  apply greedy_sound in H as (u2 & s3 & _ & H).
  destruct (strip_prefix [NL] s3) as [s4|].
  - destruct (rmatch body_re s4 g2 accept) as [[g4 r4]|] eqn:E4;
      cbn [orelse] in H.
    + injection H as -> ->.
      apply body_match_group in E4 as (u & _ & -> & Hu). eauto.
    + apply body_match_group in H as (u & _ & -> & Hu). eauto.
  - cbn [orelse] in H.
    apply body_match_group in H as (u & _ & -> & Hu). eauto.
Qed.

Lemma findall_fence_free (s : str) :
  forall skip,
    Forall (fun b => fence_free b = true) (findall_from fence_re skip s).
Proof.
  induction s as [|c s IH]; intros [|n]; cbn [findall_from].
  - constructor.
  - constructor.
  - destruct (match_here fence_re (c :: s)) as [[g rest]|] eqn:E;
      [|apply IH].
    apply fence_match_group in E as (b & -> & Hb).
    constructor; [exact Hb|apply IH].
  - apply IH.
Qed.

Lemma contains_false_app_l (p a b : str) :
  contains p (a ++ b) = false -> contains p a = false.
Proof.
  intros H. destruct (contains p a) eqn:E; [|reflexivity].
  now rewrite (contains_app_l _ _ b E) in H.
Qed.

Lemma contains_false_app_r (p a b : str) :
  contains p (a ++ b) = false -> contains p b = false.
Proof.
  intros H. destruct (contains p b) eqn:E; [|reflexivity].
  now rewrite (contains_app_r _ a _ E) in H.
Qed.

Lemma contains_false_strip (p s : str) :
  contains p s = false -> contains p (strip s) = false.
Proof.
  intros H. unfold strip.
  destruct (lstrip_split s) as (ws & Hs & _).
  destruct (rstrip_split (lstrip s)) as (ws' & Hs' & _).
  rewrite Hs in H. apply contains_false_app_r in H.
  rewrite Hs' in H. now apply contains_false_app_l in H.
Qed.

Lemma contains_fence_cut (a b : str) :
  contains FENCE a = false -> contains FENCE b = false ->
  contains FENCE (a ++ NL :: b) = false.
Proof.
  intros Ha Hb. induction a as [|c a IH].
  - cbn [app contains]. now rewrite Hb.
  - apply contains_head in Ha as [Hs Ha].
    change ((c :: a) ++ NL :: b) with (c :: a ++ NL :: b).
    cbn [contains]. rewrite (IH Ha), orb_false_r.
    change (c :: a ++ NL :: b) with ((c :: a) ++ NL :: b).
    now apply startswith_cut.
Qed.

Lemma join_no_fence (parts : list str) :
  Forall (fun p => contains FENCE p = false) parts ->
  contains FENCE (join [NL; NL] parts) = false.
Proof.
  induction 1 as [|p ps Hp _ IH]; [reflexivity|].
  destruct ps as [|q ps]; [exact Hp|].
  change (join [NL; NL] (p :: q :: ps))
    with (p ++ NL :: NL :: join [NL; NL] (q :: ps)).
  apply contains_fence_cut; [exact Hp|].
  apply (contains_fence_cut []); [reflexivity|exact IH].
Qed.

(** X11. What [extract_code_from_chat] returns is either the stitched text
    of the agent, unchanged, or a text without any fence: when blocks are
    found, no fence of the reply gets into the script. *)
Theorem extract_code_no_fence (chat_history : list message) (agent_name : str) :
  extract_code_from_chat chat_history agent_name
  = extract_text_from_chat chat_history agent_name
  \/ contains FENCE (extract_code_from_chat chat_history agent_name) = false.
Proof.
  rewrite extract_text_stitched, <- code_parts_filter.
  unfold extract_code_from_chat.
  destruct (code_parts chat_history agent_name) as [|p ps]; [now left|].
  cbv zeta.
  pose proof (findall_fence_free (join [NL] (p :: ps)) 0) as Hall.
  fold (findall fence_re (join [NL] (p :: ps))) in Hall.
  destruct (findall fence_re (join [NL] (p :: ps))) as [|b bs]; [now left|].
  right. apply join_no_fence.
  apply Forall_map. eapply Forall_impl; [|exact Hall].
  intros x Hx. apply contains_false_strip.
  unfold fence_free in Hx. apply negb_true_iff in Hx.
  now apply contains_false_app_l in Hx.
Qed.

(** *** The deployment request *)

Lemma rstrip_blank_app (s ws : str) :
  blank ws = true -> rstrip (s ++ ws) = rstrip s.
Proof.
  intros H. unfold rstrip. rewrite rev_app_distr.
  rewrite lstrip_blank_app; [reflexivity|now rewrite blank_rev].
Qed.

Lemma strip_newline (s : str) : strip (s ++ [NL]) = strip s.
Proof.
  unfold strip. destruct (blank s) eqn:E.
  - rewrite lstrip_blank_app by assumption.
    now rewrite (lstrip_blank _ E).
  - rewrite lstrip_app_dark by assumption. now apply rstrip_blank_app.
Qed.

Lemma deploy_message_render (current_script : str) :
  deploy_message current_script
  = render (Block (lit "Deployment Target: AWS Glue & Azure Databricks"
                   ++ [NL; NL] ++ lit "Approved Script:" ++ [NL])
                  (lit "python") [NL] (current_script ++ [NL])).
Proof.
  unfold deploy_message, render; cbn [prose tag gap body].
  rewrite <- !app_assoc. reflexivity.
Qed.

Lemma deploy_message_trimmed (current_script : str) :
  strip (deploy_message current_script) = deploy_message current_script.
Proof.
  apply strip_of_trimmed; [reflexivity|].
  unfold deploy_message. rewrite !rev_app_distr. reflexivity.
Qed.

(** X12. The deployment request carries the script where the extractor of
    this program finds it again: a script that holds no fence, put into the
    request and extracted from it, comes back trimmed and otherwise
    unchanged; the preamble is dropped. *)
Theorem deploy_message_round_trip (current_script agent_name : str)
    (r : option str) :
  contains FENCE current_script = false ->
  extract_code_from_chat
    [Message r (Some agent_name) (Some (deploy_message current_script))]
    agent_name
  = strip current_script.
Proof.
  intros Hs. unfold extract_code_from_chat.
  cbn [code_parts name content get].
  rewrite str_eqb_refl, deploy_message_trimmed.
  replace (truthy (deploy_message current_script)) with true by reflexivity.
  cbn [andb join]. cbv zeta.
  rewrite deploy_message_render. unfold findall.
  pose proof (findall_blocks
                [Block (lit "Deployment Target: AWS Glue & Azure Databricks"
                        ++ [NL; NL] ++ lit "Approved Script:" ++ [NL])
                       (lit "python") [NL] (current_script ++ [NL])] [])
    as Hblocks.
  cbn [map List.concat body] in Hblocks. rewrite !app_nil_r in Hblocks.
  rewrite Hblocks.
  - cbn [findall_from]. 
    replace (match_here fence_re []) with (@None (option str * str))
      by reflexivity.
    cbn [app map join]. now rewrite strip_lstrip, strip_newline.
  - constructor; [|constructor]. split; [right; left; reflexivity|].
    unfold delimited; cbn [prose gap body].
    split; [reflexivity|]. split; [reflexivity|]. split; [discriminate|].
    unfold fence_free. apply negb_true_iff. rewrite <- app_assoc.
    apply contains_fence_cut; [exact Hs|reflexivity].
Qed.

Lemma deploy_message_round_trip_witness :
  extract_code_from_chat
    [Message None (Some (lit "Admin")) (Some (deploy_message GOOD_SCRIPT))]
    (lit "Admin")
  = strip GOOD_SCRIPT.
Proof.
  apply (deploy_message_round_trip GOOD_SCRIPT (lit "Admin") None).
  vm_compute; reflexivity.
Defined.

(** ** More on the pipeline *)

Lemma histories_of_app (tr1 tr2 : list event) :
  histories_of (tr1 ++ tr2) = histories_of tr1 ++ histories_of tr2.
Proof.
  induction tr1 as [|e tr1 IH]; [reflexivity|].
  destruct e as [a p t [h|x]| | |]; cbn [app histories_of]; rewrite IH;
    try reflexivity.
  now rewrite app_assoc.
Qed.

Lemma loop_shape_no_cloud (max_review_cycles : Z) (cycles : list Z)
    (evs : list event) :
  loop_shape max_review_cycles cycles evs ->
  count_chats Cloud_Architect evs = 0%nat.
Proof. induction 1; unfold count_chats in *; cbn; auto. Qed.

Section PipelineMore.

Variable nonascii_lower nonascii_upper : char -> str.
Variable script_dir : str.
Variable World : Type.
Variable initiate_chat :
  World -> agent -> str -> nat -> outcome (list message) * World.

Abbreviation loop' := (review_loop World initiate_chat).
Abbreviation run' :=
  (run_engineering_squad nonascii_lower nonascii_upper script_dir
     World initiate_chat).

(** When the loop over the cycles [lo .. max_review_cycles] is left without
    approval, the script it hands on has failed the check of the last
    cycle. *)
Lemma review_loop_rejected (max_review_cycles : Z) (n : nat) :
  forall lo current_script all_history st script history st',
    (lo + Z.of_nat n = max_review_cycles)%Z ->
    loop' (range_from lo (S n)) max_review_cycles current_script all_history st
    = (Return (false, script, history), st') ->
    fst (local_quality_check script) = false.
Proof.
  induction n as [|n IH]; intros lo s h st s' h' st' Hlast Hrun;
    cbn [range_from] in Hrun; rewrite review_loop_cons in Hrun;
    cbv zeta in Hrun;
    destruct (fst (local_quality_check s)) eqn:Epass; try discriminate.
  - assert (E : (lo <? max_review_cycles)%Z = false)
      by (apply Z.ltb_ge; lia).
    rewrite E in Hrun. cbn in Hrun. now injection Hrun as <- <- <-.
  - destruct (lo <? max_review_cycles)%Z.
    + destruct (initiate_chat _ _ _ _) as [[rc|e] w']; [|discriminate].
      apply IH in Hrun; [assumption|lia].
    + apply IH in Hrun; [assumption|lia].
Qed.

(** The history that the loop hands on is the one it was given, followed by
    the histories of its chats. *)
Lemma review_loop_history (max_review_cycles : Z) (cycles : list Z) :
  forall current_script all_history st approved script history st',
    loop' cycles max_review_cycles current_script all_history st
    = (Return (approved, script, history), st') ->
    histories_of (trace st) = all_history ->
    histories_of (trace st') = history.
Proof.
  induction cycles as [|cycle rest IH];
    intros s h st approved s' h' st' Hrun Hh.
  - cbn in Hrun. now injection Hrun as _ _ <- <-.
  - rewrite review_loop_cons in Hrun. cbv zeta in Hrun.
    assert (Hcheck : histories_of (trace st ++ [ECheck cycle s]) = h)
      by (rewrite histories_of_app; cbn; now rewrite app_nil_r).
    destruct (fst (local_quality_check s)).
    + now injection Hrun as _ _ <- <-.
    + destruct (cycle <? max_review_cycles)%Z.
      * destruct (initiate_chat _ _ _ _) as [[rc|e] w']; [|discriminate].
        apply IH in Hrun; [assumption|].
        cbn [trace]. rewrite histories_of_app, Hcheck. cbn.
        now rewrite app_nil_r.
      * apply IH in Hrun; assumption.
Qed.

(** X13. For [max_review_cycles >= 1] the review status written into the
    script artifact is sound and complete: it says APPROVED exactly when
    the script that is written passes [local_quality_check]. *)
Theorem review_status_exact (task : str) (max_review_cycles : Z) (w : World) :
  (1 <= max_review_cycles)%Z ->
  fst (run' task max_review_cycles (start w)) = Return tt ->
  exists pre script,
    trace (snd (run' task max_review_cycles (start w)))
    = pre ++ [EWrite (output_path script_dir (lit "approved_script.py"))
                (script_file (fst (local_quality_check script)) script)].
Proof.
  intros Hmax. rewrite run_unfold.
  destruct (initiate_chat w Data_Architect task 3) as [[arch_chat|e1] w1];
    [|discriminate].
  assert (Hrange : range 1 (max_review_cycles + 1)
                   = range_from 1 (S (Z.to_nat (max_review_cycles - 1)))).
  { unfold range. f_equal. lia. }
  rewrite Hrange.
  match goal with |- context [loop' ?c ?m ?s ?h ?st] =>
    pose proof (review_loop_result World initiate_chat m c s h st) as Hres;
    pose proof (review_loop_rejected m (Z.to_nat (max_review_cycles - 1))
                  1 s h st) as Hrej;
    destruct (loop' c m s h st) as [[[[approved s'] h']|e2] st2]
  end; [|discriminate].
  destruct (Hres _ _ _ _ eq_refl eq_refl) as [_ Happ].
  destruct (initiate_chat (world st2) _ _ _) as [[cloud_chat|e3] w3];
    [|discriminate].
  intros _. cbn [snd trace]. unfold artifacts.
  eexists (trace st2 ++ [_; _; _; _; _; _]), s'.
  rewrite <- app_assoc. cbn [app]. repeat f_equal.
  destruct approved.
  - symmetry. now apply Happ.
  - symmetry. apply (Hrej s' h' st2); [lia|reflexivity].
Qed.

(** X14. The transcript that a run writes is complete: it is made from the
    histories of all the chats of the run, the deployment chat included, in
    the order of the chats, and it is written under the slug of the task. *)
Theorem transcript_complete (task : str) (max_review_cycles : Z) (w : World) :
  fst (run' task max_review_cycles (start w)) = Return tt ->
  let tr := trace (snd (run' task max_review_cycles (start w))) in
  In (EWrite (transcript_path nonascii_lower script_dir task)
        (transcript_file nonascii_upper (histories_of tr) task)) tr.
Proof.
  rewrite run_unfold.
  destruct (initiate_chat w Data_Architect task 3) as [[arch_chat|e1] w1];
    [|discriminate].
  match goal with |- context [loop' ?c ?m ?s ?h ?st] =>
    pose proof (review_loop_history m c s h st) as Hhist;
    destruct (loop' c m s h st) as [[[[approved s'] h']|e2] st2]
  end; [|discriminate].
  specialize (Hhist _ _ _ _ eq_refl).
  cbn [trace histories_of] in Hhist. rewrite app_nil_r in Hhist.
  specialize (Hhist eq_refl).
  destruct (initiate_chat (world st2) _ _ _) as [[cloud_chat|e3] w3];
    [|discriminate].
  intros _. cbn [snd trace]. unfold artifacts.
  rewrite histories_of_app, Hhist. cbn [histories_of]. rewrite app_nil_r.
  apply in_or_app. right. right. right. left. reflexivity.
Qed.

(** X15. In a run that no exception ends the deployment agent is asked
    exactly once, after the review, for the very script that is then
    written to approved_script.py; and the body of infra_config.txt is the
    text of the deployment agent in that chat.  The three files are
    written last, in the order transcript, deployment artifact, script. *)
Theorem deployment_consistent (task : str) (max_review_cycles : Z) (w : World) :
  fst (run' task max_review_cycles (start w)) = Return tt ->
  let tr := trace (snd (run' task max_review_cycles (start w))) in
  count_chats Cloud_Architect tr = 1%nat
  /\ exists pre approved script cloud_chat,
       tr = pre
            ++ EChat Cloud_Architect (deploy_message script) 2
                 (Return cloud_chat)
            :: artifacts nonascii_lower nonascii_upper script_dir task
                 approved script (histories_of tr)
                 (extract_text_from_chat cloud_chat (lit "Cloud_Architect")).
Proof.
  rewrite run_unfold.
  destruct (initiate_chat w Data_Architect task 3) as [[arch_chat|e1] w1];
    [|discriminate].
  match goal with |- context [loop' ?c ?m ?s ?h ?st] =>
    pose proof (review_loop_history m c s h st) as Hhist;
    destruct (review_loop_shape World initiate_chat m c s h st) as (evs & Htr & Hshape);
    destruct (loop' c m s h st) as [[[[approved s'] h']|e2] st2]
  end; [|discriminate].
  specialize (Hhist _ _ _ _ eq_refl).
  cbn [trace histories_of] in Hhist. rewrite app_nil_r in Hhist.
  specialize (Hhist eq_refl). cbn [snd trace] in Htr.
  destruct (initiate_chat (world st2) _ _ _) as [[cloud_chat|e3] w3];
    [|discriminate].
  intros _. cbn [snd trace]. split.
  - rewrite Htr, !count_chats_app, (loop_shape_no_cloud _ _ _ Hshape).
    reflexivity.
  - exists (trace st2), approved, s', cloud_chat.
    rewrite histories_of_app, Hhist. unfold artifacts at 2.
    cbn [histories_of]. now rewrite app_nil_r.
Qed.

End PipelineMore.

Lemma review_status_exact_witness :
  exists pre script,
    trace (snd (run_scripted SCENARIO_TASK DEFAULT_MAX_REVIEW_CYCLES
                  WORLD_STUBBORN))
    = pre ++ [EWrite SCRIPT_PATH
                (script_file (fst (local_quality_check script)) script)].
Proof.
  refine (review_status_exact identity_case identity_case (lit "/app")
            scripted scripted_chat SCENARIO_TASK DEFAULT_MAX_REVIEW_CYCLES
            WORLD_STUBBORN _ _).
  - unfold DEFAULT_MAX_REVIEW_CYCLES; lia.
  - vm_compute; reflexivity.
Defined.

Lemma transcript_complete_witness :
  In (EWrite (transcript_path identity_case (lit "/app") SCENARIO_TASK)
        (transcript_file identity_case
           (histories_of
              (trace (snd (run_scripted SCENARIO_TASK
                             DEFAULT_MAX_REVIEW_CYCLES WORLD_GOOD))))
           SCENARIO_TASK))
     (trace (snd (run_scripted SCENARIO_TASK DEFAULT_MAX_REVIEW_CYCLES
                    WORLD_GOOD))).
Proof.
  refine (transcript_complete identity_case identity_case (lit "/app")
            scripted scripted_chat SCENARIO_TASK DEFAULT_MAX_REVIEW_CYCLES
            WORLD_GOOD _).
  vm_compute; reflexivity.
Defined.

Lemma deployment_consistent_witness :
  count_chats Cloud_Architect
    (trace (snd (run_scripted SCENARIO_TASK DEFAULT_MAX_REVIEW_CYCLES
                   WORLD_GOOD))) = 1%nat.
Proof.
  refine (proj1 (deployment_consistent identity_case identity_case
                   (lit "/app") scripted scripted_chat SCENARIO_TASK
                   DEFAULT_MAX_REVIEW_CYCLES WORLD_GOOD _)).
  vm_compute; reflexivity.
Defined.

(** ** The completion adapter *)

Section EuronClientFacts.

Import EuronClient.

Lemma last_n_short {A : Type} (n : nat) (l : list A) :
  (List.length l <= n)%nat -> last_n n l = l.
Proof.
  intros H. unfold last_n.
  replace (List.length l - n)%nat with 0%nat by lia. reflexivity.
Qed.

Lemma last_n_app {A : Type} (older recent : list A) :
  last_n (List.length recent) (older ++ recent) = recent.
Proof.
  unfold last_n. rewrite length_app, Nat.add_sub.
  rewrite skipn_app, skipn_all, Nat.sub_diag. reflexivity.
Qed.

Lemma length_last_n {A : Type} (n : nat) (l : list A) :
  List.length (last_n n l) = Nat.min n (List.length l).
Proof. unfold last_n. rewrite length_skipn. lia. Qed.

(** X16. Of the conversation only the last five messages are sent, in
    their order, each cut down to role and content (a missing role is sent
    as user, a missing content as the empty text): a shorter conversation
    is sent whole, and of a longer one everything before the last five is
    dropped from the request without notice. *)
Theorem request_window (self : client) (messages : list request_message) :
  let sent := p_messages (req_json (build_request self (Some messages))) in
  let sent_form m := WireMessage (dict_get (rm_role m) (lit "user"))
                                 (dict_get (rm_content m) []) in
  List.length sent = Nat.min 5 (List.length messages)
  /\ ((List.length messages <= 5)%nat -> sent = map sent_form messages)
  /\ (forall older recent,
        messages = older ++ recent -> List.length recent = 5%nat ->
        sent = map sent_form recent).
Proof.
  cbn [build_request req_json p_messages]. unfold format_messages. cbv zeta.
  split; [|split].
  - now rewrite length_map, length_last_n.
  - intros H. now rewrite last_n_short.
  - intros older recent -> Hlen.
    rewrite <- Hlen at 1. now rewrite last_n_app.
Qed.

(** X17. [create] returns exactly when the service answers with a status
    outside 400-599 and a body that decodes to a dict whose [choices] is a
    list starting with a dict whose [message] is a dict with a [content]
    key.  The response then holds that one content, of whatever JSON type
    (a null is passed on as it is), and nothing of the other choices. *)
Theorem create_returns (post : request -> reply) (self : client)
    (messages : option (list request_message)) (response : mock_response) :
  create post self messages = inr response <->
  exists status_code items others citems mitems content,
    post (build_request self messages) = Reply status_code (Some (JDict items))
    /\ ((400 <=? status_code) && (status_code <? 600))%Z = false
    /\ lookup (lit "choices") items = Some (JList (JDict citems :: others))
    /\ lookup (lit "message") citems = Some (JDict mitems)
    /\ lookup (lit "content") mitems = Some content
    /\ response = MockResponse [content] (model_name self)
    /\ message_retrieval response = [content].
Proof.
  unfold create, read_reply. split.
  - destruct (post (build_request self messages)) as [|status_code body];
      [discriminate|].
    destruct ((400 <=? status_code) && (status_code <? 600))%Z eqn:Es;
      [discriminate|].
    destruct body as [[| | | | |items]|]; try discriminate.
    cbn [subscript].
    destruct (lookup (lit "choices") items) as [cs|] eqn:Ec; [|discriminate].
    destruct cs as [| | |[|c s]|[|[| | | | |citems] others]|]; cbn [subscript0 subscript];
      try discriminate.
    destruct (lookup (lit "message") citems) as [m|] eqn:Em; [|discriminate].
    destruct m as [| | | | |mitems]; cbn [subscript]; try discriminate.
    destruct (lookup (lit "content") mitems) as [content|] eqn:Ek;
      [|discriminate].
    intros [= <-]. exists status_code, items, others, citems, mitems, content.
    repeat split; assumption.
  - intros (status_code & items & others & citems & mitems & content
            & -> & -> & Hc & Hm & Hk & -> & _).
    cbn [subscript]. rewrite Hc. cbn [subscript0 subscript]. rewrite Hm.
    cbn [subscript]. now rewrite Hk.
Qed.

(** X18. A status from 400 to 599 is an error whatever the body says, and
    without such a status a missing piece of the reply is reported by the
    lookup that misses it: no [choices] key, an empty [choices] list, a
    choice without [message], a message without [content]. *)
Theorem create_errors (post : request -> reply) (self : client)
    (messages : option (list request_message)) (status_code : Z)
    (body : option json) :
  post (build_request self messages) = Reply status_code body ->
  (((400 <=? status_code) && (status_code <? 600))%Z = true ->
   create post self messages = inl (StatusError status_code))
  /\ (((400 <=? status_code) && (status_code <? 600))%Z = false ->
      (body = None -> create post self messages = inl JSONDecodeError)
      /\ (forall items,
            body = Some (JDict items) ->
            (lookup (lit "choices") items = None ->
             create post self messages = inl (KeyError (lit "choices")))
            /\ (lookup (lit "choices") items = Some (JList []) ->
                create post self messages = inl IndexError)
            /\ (forall citems others,
                  lookup (lit "choices") items
                  = Some (JList (JDict citems :: others)) ->
                  (lookup (lit "message") citems = None ->
                   create post self messages
                   = inl (KeyError (lit "message")))
                  /\ (forall mitems,
                        lookup (lit "message") citems = Some (JDict mitems) ->
                        lookup (lit "content") mitems = None ->
                        create post self messages
                        = inl (KeyError (lit "content")))))).
Proof.
  intros Hpost. unfold create, read_reply. rewrite Hpost.
  split; [now intros ->|]. intros ->.
  split; [now intros ->|].
  intros items ->. cbn [subscript].
  split; [now intros ->|]. split; [now intros ->|].
  intros citems others ->. cbn [subscript0 subscript].
  split; [now intros ->|].
  intros mitems -> Hk. cbn [subscript]. now rewrite Hk.
Qed.

End EuronClientFacts.

Lemma create_errors_witness :
  EuronClient.create SERVICE_DOWN SAMPLE_CLIENT None
  = inl (EuronClient.StatusError 503).
Proof.
  refine (proj1 (create_errors SERVICE_DOWN SAMPLE_CLIENT None
                   503 (Some (EuronClient.JDict [])) _) _); reflexivity.
Defined.

Lemma request_window_witness :
  EuronClient.p_messages
    (EuronClient.req_json
       (EuronClient.build_request SAMPLE_CLIENT
          (Some (SAMPLE_OLD :: SAMPLE_RECENT))))
  = map (fun m =>
           EuronClient.WireMessage
             (EuronClient.dict_get (EuronClient.rm_role m) (lit "user"))
             (EuronClient.dict_get (EuronClient.rm_content m) []))
        SAMPLE_RECENT.
Proof.
  refine (proj2 (proj2 (request_window SAMPLE_CLIENT
                          (SAMPLE_OLD :: SAMPLE_RECENT)))
            [SAMPLE_OLD] SAMPLE_RECENT _ _); reflexivity.
Defined.

Lemma create_returns_witness :
  EuronClient.create SERVICE_OK SAMPLE_CLIENT None
  = inr (EuronClient.MockResponse [EuronClient.JString (lit "hello")]
           (lit "qwen/qwen3-32b")).
Proof.
  apply (proj2 (create_returns SERVICE_OK SAMPLE_CLIENT None _)).
  do 6 eexists. repeat split; reflexivity.
Defined.
